(** * steamspecs: catalog filter, shard cache, requirement comparator, profile store

    A shallow embedding of [app.js] and the properties its specification
    states about it.

    Conventions of the embedding.
    - A JS string is a [string]: a sequence of code units, here the code
      units below 256.
    - A JS Number is a binary64 value, [spec_float] at precision 53 and
      maximal exponent 1024; comparison, [Number.isNaN], [Number.isFinite],
      [Number(text)] and number-to-text conversion are written out below.
    - Integers that the data model types as [int] (appid, shard_size, shard
      ids) are [Z].
    - [localStorage] and the shard cache (a JS [Map]) are finite maps.
    - A JS exception is the [Throw] case of a completion. *)

From Stdlib Require Import ZArith NArith Ascii DecimalString SpecFloat.
From Stdlib Require Import DecimalFacts DecimalPos DecimalN.
From Stdlib Require Import QArith Qround.
From stdpp Require Import gmap strings list.

Set Warnings "-register-all".

Local Open Scope Z_scope.

(** ** Strings *)

Module Str.

(** WhiteSpace and LineTerminator code units (below 256): what
    [String.prototype.trim] strips and what [Number(text)] skips. *)
Definition is_white_space (c : ascii) : bool :=
  match c with
  | "009" | "010" | "011" | "012" | "013" | " " | "160" => true
  | _ => false
  end%char.

Fixpoint trimStart (s : string) : string :=
  match s with
  | String c s' => if is_white_space c then trimStart s' else s
  | EmptyString => EmptyString
  end.

Fixpoint trimEnd (s : string) : string :=
  match s with
  | EmptyString => EmptyString
  | String c s' =>
      match trimEnd s' with
      | EmptyString => if is_white_space c then EmptyString else String c EmptyString
      | t => String c t
      end
  end.

(** [s.trim()] *)
Definition trim (s : string) : string := trimEnd (trimStart s).

(** Lower-case mapping of one code unit: A-Z and the Latin-1 capitals. *)
Definition lower_char (c : ascii) : ascii :=
  let n := N_of_ascii c in
  if ((65 <=? n) && (n <=? 90) || (192 <=? n) && (n <=? 222) && negb (n =? 215))%N
  then ascii_of_N (n + 32) else c.

(** [s.toLowerCase()] *)
Fixpoint toLowerCase (s : string) : string :=
  match s with
  | EmptyString => EmptyString
  | String c s' => String (lower_char c) (toLowerCase s')
  end.

(** [s.startsWith(q)] *)
Fixpoint startsWith (s q : string) {struct q} : bool :=
  match q, s with
  | EmptyString, _ => true
  | String _ _, EmptyString => false
  | String b q', String a s' => if Ascii.eqb a b then startsWith s' q' else false
  end.

(** [s.includes(q)]: [q] occurs in [s] at some position. *)
Fixpoint includes (s q : string) : bool :=
  if startsWith s q then true
  else match s with
       | EmptyString => false
       | String _ s' => includes s' q
       end.

(** [fill.repeat(...)] cut to [n] code units, as [padStart] builds it. *)
Fixpoint filler (n : nat) (fill cur : string) : string :=
  match n with
  | O => EmptyString
  | S n' =>
      match cur with
      | String c cur' => String c (filler n' fill cur')
      | EmptyString =>
          match fill with
          | String c fill' => String c (filler n' fill fill')
          | EmptyString => EmptyString
          end
      end
  end.

(** [s.padStart(target, fill)] *)
Definition padStart (s : string) (target : nat) (fill : string) : string :=
  let len := String.length s in
  if (target <=? len)%nat then s
  else match fill with
       | EmptyString => s
       | _ => filler (target - len) fill fill +:+ s
       end.

(** JS truthiness of a string: the empty string is falsy. *)
Definition truthy (s : string) : bool :=
  match s with EmptyString => false | _ => true end.

End Str.

(** ** Numbers *)

Definition number := spec_float.

Module Num.

Definition prec : Z := 53.
Definition emax : Z := 1024.

Definition NaN : number := S754_nan.
Definition Infinity : number := S754_infinity false.
Definition zero : number := S754_zero false.

Definition eqb (x y : number) : bool :=
  match x, y with
  | S754_zero a, S754_zero b => Bool.eqb a b
  | S754_infinity a, S754_infinity b => Bool.eqb a b
  | S754_nan, S754_nan => true
  | S754_finite a m e, S754_finite b m' e' => Bool.eqb a b && (m =? m')%positive && (e =? e')
  | _, _ => false
  end.

(** [Number.isNaN(x)] for a Number [x]. *)
Definition isNaN (x : number) : bool :=
  match x with S754_nan => true | _ => false end.

(** [Number.isFinite(x)] for a Number [x]. *)
Definition isFinite (x : number) : bool :=
  match x with S754_zero _ | S754_finite _ _ _ => true | _ => false end.

(** [x >= y]: false when [x < y] or when the two do not compare (a NaN). *)
Definition ge (x y : number) : bool :=
  match SFcompare x y with
  | Some Gt | Some Eq => true
  | Some Lt | None => false
  end.

(** [x === y] on Numbers: a NaN equals nothing, the two zeros are equal. *)
Definition equal (x y : number) : bool := SFeqb x y.

(** [x < y] *)
Definition lt (x y : number) : bool := SFltb x y.

(** The Number nearest to the integer [z]. *)
Definition of_Z (z : Z) : number := binary_normalize prec emax z 0 false.

(** Number of decimal digits of [m] ([0] has none). *)
Definition digits10 (m : N) : Z :=
  match m with
  | N0 => 0
  | _ => Z.of_nat (Decimal.nb_digits (N.to_uint m))
  end.

(** The Number nearest to [m * 10^e] (ties to even), with the sign [neg]:
    the rounding of a decimal literal.  Beyond 400 decimal orders of
    magnitude the result is an infinity or a zero whatever the digits are. *)
Definition of_decimal (neg : bool) (m : N) (e : Z) : number :=
  match m with
  | N0 => S754_zero neg
  | Npos p =>
      if 400 <? digits10 m + e then S754_infinity neg
      else if digits10 m + e <? -400 then S754_zero neg
      else match e with
           | Zneg k =>
               let '(q, e', l) :=
                 SFdiv_core_binary prec emax (Zpos p) 0 (Zpos (10 ^ k)) 0 in
               binary_round_aux prec emax neg q e' l
           | Zpos k => binary_round prec emax neg (p * 10 ^ k)%positive 0
           | Z0 => binary_round prec emax neg p 0
           end
  end.

End Num.

(** *** Number to text: [Number::toString] in radix 10 *)

Module NumText.
Import Num.

(** The decimal digits of [m], most significant first; [0] gives ["0"]. *)
Definition digits_of_N (m : N) : string :=
  NilZero.string_of_uint (N.to_uint m).

(** [x = num / den] exactly, for a positive finite [x = m * 2^e]. *)
Definition fraction (m : positive) (e : Z) : Z * Z :=
  match e with
  | Zneg k => (Zpos m, Zpos (2 ^ k))
  | _ => (Zpos m * 2 ^ e, 1)
  end.

(** [num / den < 10^t] *)
Definition below_pow10 (num den t : Z) : bool :=
  if 0 <=? t then num <? den * 10 ^ t else num * 10 ^ (- t) <? den.

(** The [n] with [10^(n-1) <= num/den < 10^n]. *)
Definition magnitude (num den : Z) : Z :=
  let c := digits10 (Z.to_N num) - digits10 (Z.to_N den) + 1 in
  if below_pow10 num den (c - 1) then c - 1 else c.

(** The [k]-digit decimals around [num/den]: with [v = num/den * 10^(k-n)],
    the integers [floor v] and [floor v + 1], each tried as [s * 10^(n-k)];
    when both round to [x] the nearer one is taken, the even one on a tie. *)
Definition candidate (x : number) (num den n k : Z) : option N :=
  let a := if n <=? k then num * 10 ^ (k - n) else num in
  let b := if n <=? k then den else den * 10 ^ (n - k) in
  let lo := a / b in
  let r := a mod b in
  let ok (s : Z) := eqb (of_decimal false (Z.to_N s) (n - k)) x in
  match ok lo, ok (lo + 1) with
  | true, true =>
      match 2 * r ?= b with
      | Lt => Some (Z.to_N lo)
      | Gt => Some (Z.to_N (lo + 1))
      | Eq => Some (Z.to_N (if Z.even lo then lo else lo + 1))
      end
  | true, false => Some (Z.to_N lo)
  | false, true => Some (Z.to_N (lo + 1))
  | false, false => None
  end.

(** The least [k], from [k] upwards, with a [k]-digit decimal that rounds to
    [x].  Seventeen digits always identify a binary64 value; the last line is
    the digits at the final [k], for a total function. *)
Fixpoint shortest (fuel : nat) (x : number) (num den n k : Z) : N * Z :=
  match candidate x num den n k with
  | Some s => (s, n - k)
  | None =>
      match fuel with
      | S fuel' => shortest fuel' x num den n (k + 1)
      | O => (Z.to_N ((if n <=? k then num * 10 ^ (k - n) else num)
                      / (if n <=? k then den else den * 10 ^ (n - k))), n - k)
      end
  end.

(** Drop the trailing zeros of [s], raising the exponent. *)
Fixpoint strip_zeros (fuel : nat) (s : N) (e : Z) : N * Z :=
  match fuel with
  | O => (s, e)
  | S fuel' =>
      if ((s =? 0) || negb (s mod 10 =? 0))%N then (s, e)
      else strip_zeros fuel' (s / 10)%N (e + 1)
  end.

(** The digits [s] and the exponent [e] of the shortest decimal [s * 10^e]
    that rounds to the positive finite [m * 2^e2]. *)
Definition shortest_decimal (m : positive) (e2 : Z) : N * Z :=
  let '(num, den) := fraction m e2 in
  let n := magnitude num den in
  let '(s, e) := shortest 16 (S754_finite false m e2) num den n 1 in
  strip_zeros 20 s e.

Fixpoint zeros (n : nat) : string :=
  match n with O => EmptyString | S n' => String "0" (zeros n') end.

Fixpoint take (n : nat) (s : string) : string :=
  match n, s with
  | S n', String c s' => String c (take n' s')
  | _, _ => EmptyString
  end.

Fixpoint drop (n : nat) (s : string) : string :=
  match n, s with
  | S n', String _ s' => drop n' s'
  | _, _ => s
  end.

(** Steps 6 to 11 of [Number::toString]: [ds] are the [k] digits and [n]
    places the decimal point. *)
Definition format (ds : string) (n : Z) : string :=
  let k := Z.of_nat (String.length ds) in
  if (-5 <=? n) && (n <=? 21) then
    if k <=? n then ds +:+ zeros (Z.to_nat (n - k))
    else if 0 <? n then take (Z.to_nat n) ds +:+ "." +:+ drop (Z.to_nat n) ds
    else "0." +:+ zeros (Z.to_nat (- n)) +:+ ds
  else
    let e := n - 1 in
    let sign := if 0 <=? e then "+" else "-" in
    let es := digits_of_N (Z.to_N (Z.abs e)) in
    if k =? 1 then ds +:+ "e" +:+ sign +:+ es
    else take 1 ds +:+ "." +:+ drop 1 ds +:+ "e" +:+ sign +:+ es.

(** [String(x)], [`${x}`] *)
Definition toString (x : number) : string :=
  match x with
  | S754_nan => "NaN"
  | S754_zero _ => "0"
  | S754_infinity false => "Infinity"
  | S754_infinity true => "-Infinity"
  | S754_finite neg m e2 =>
      let '(s, e) := shortest_decimal m e2 in
      let ds := digits_of_N s in
      (if neg then "-" else EmptyString) +:+ format ds (Z.of_nat (String.length ds) + e)
  end.

End NumText.

(** *** Text to number: [Number(text)], the StringToNumber conversion *)

Module NumParse.
Import Num.

Definition digit (c : ascii) : option N :=
  let n := N_of_ascii c in
  if ((48 <=? n) && (n <=? 57))%N then Some (n - 48)%N else None.

(** A hexadecimal digit; also serves radix 8 and 2 through the bound. *)
Definition hex_digit (c : ascii) : option N :=
  let n := N_of_ascii c in
  if ((48 <=? n) && (n <=? 57))%N then Some (n - 48)%N
  else if ((97 <=? n) && (n <=? 102))%N then Some (n - 87)%N
  else if ((65 <=? n) && (n <=? 70))%N then Some (n - 55)%N
  else None.

(** The longest run of decimal digits at the head of [s], added to [acc]:
    the value, the number of digits read, the rest. *)
Fixpoint digits (s : string) (acc : N) (cnt : nat) : N * nat * string :=
  match s with
  | String c s' =>
      match digit c with
      | Some d => digits s' (acc * 10 + d)%N (S cnt)
      | None => (acc, cnt, s)
      end
  | EmptyString => (acc, cnt, s)
  end.

(** All of [s] as digits of the given radix; [None] when a code unit is not
    one. *)
Fixpoint radix_digits (radix : N) (s : string) (acc : N) : option N :=
  match s with
  | EmptyString => Some acc
  | String c s' =>
      match hex_digit c with
      | Some d => if (d <? radix)%N then radix_digits radix s' (acc * radix + d)%N else None
      | None => None
      end
  end.

Definition sign (s : string) : bool * string :=
  match s with
  | String c s' =>
      if Ascii.eqb c "-" then (true, s')
      else if Ascii.eqb c "+" then (false, s')
      else (false, s)
  | EmptyString => (false, s)
  end.

(** ExponentPart, which must end the literal; no exponent part counts 0. *)
Definition exponent (s : string) : option Z :=
  match s with
  | EmptyString => Some 0
  | String c s' =>
      if (Ascii.eqb c "e" || Ascii.eqb c "E")%bool then
        let '(neg, s'') := sign s' in
        match digits s'' 0%N O with
        | (_, O, _) => None
        | (v, _, EmptyString) => Some (if neg then - Z.of_N v else Z.of_N v)
        | _ => None
        end
      else None
  end.

(** StrUnsignedDecimalLiteral with the sign already read. *)
Definition unsigned_decimal (neg : bool) (s : string) : number :=
  if String.eqb s "Infinity" then S754_infinity neg
  else
    let '(ip, ic, r1) := digits s 0%N O in
    let '(m, fc, r2) :=
      match r1 with
      | String "." r => digits r ip O
      | _ => (ip, O, r1)
      end in
    match (ic + fc)%nat with
    | O => NaN
    | _ =>
        match exponent r2 with
        | Some e => of_decimal neg m (e - Z.of_nat fc)
        | None => NaN
        end
    end.

(** NonDecimalIntegerLiteral: [0x], [0o], [0b] and at least one digit. *)
Definition non_decimal (radix : N) (s : string) : number :=
  match s with
  | EmptyString => NaN
  | _ =>
      match radix_digits radix s 0%N with
      | Some v => of_Z (Z.of_N v)
      | None => NaN
      end
  end.

(** [Number(text)]: white space around the literal is skipped, text that is
    empty or all white space is [+0], text that is no numeric literal is
    [NaN]. *)
Definition StringToNumber (text : string) : number :=
  match Str.trim text with
  | EmptyString => zero
  | String "0" (String "x" s) | String "0" (String "X" s) => non_decimal 16 s
  | String "0" (String "o" s) | String "0" (String "O" s) => non_decimal 8 s
  | String "0" (String "b" s) | String "0" (String "B" s) => non_decimal 2 s
  | t => let '(neg, s) := sign t in unsigned_decimal neg s
  end.

End NumParse.

(** ** Completions: a JS call returns or throws *)

Inductive error :=
| SyntaxError
| TypeError (message : string)
| Error (message : string).

Inductive completion (A : Type) :=
| Normal (a : A)
| Throw (e : error).
Arguments Normal {A} a.
Arguments Throw {A} e.

(** ** JSON values and the [JSON] object *)

Inductive value :=
| VUndefined
| VNull
| VBool (b : bool)
| VNum (x : number)
| VStr (s : string)
| VArr (elements : list value)
| VObj (properties : list (string * value)).

Module JSON.
Import Num.

Definition quote_mark : ascii := ascii_of_N 34.
Definition backslash : ascii := ascii_of_N 92.

Definition hex_char (d : N) : ascii :=
  if (d <? 10)%N then ascii_of_N (48 + d) else ascii_of_N (87 + d).

(** One code unit inside a quoted JSON string (QuoteJSONString). *)
Definition quote_char (c : ascii) : string :=
  let n := N_of_ascii c in
  if (n =? 8)%N then String backslash "b"
  else if (n =? 9)%N then String backslash "t"
  else if (n =? 10)%N then String backslash "n"
  else if (n =? 12)%N then String backslash "f"
  else if (n =? 13)%N then String backslash "r"
  else if (n =? 34)%N then String backslash (String quote_mark EmptyString)
  else if (n =? 92)%N then String backslash (String backslash EmptyString)
  else if (n <? 32)%N then
    String backslash (String "u" (String "0" (String "0"
      (String (hex_char (n / 16)) (String (hex_char (n mod 16)) EmptyString)))))
  else String c EmptyString.

Fixpoint quote_chars (s : string) : string :=
  match s with
  | EmptyString => EmptyString
  | String c s' => quote_char c +:+ quote_chars s'
  end.

Definition quote (s : string) : string :=
  String quote_mark (quote_chars s +:+ String quote_mark EmptyString).

Fixpoint join (sep : string) (parts : list string) : string :=
  match parts with
  | [] => EmptyString
  | [p] => p
  | p :: rest => p +:+ sep +:+ join sep rest
  end.

(** The members of an object text: a property whose value has no text is
    left out. *)
Fixpoint members (ser : value -> option string) (ps : list (string * value))
  : list string :=
  match ps with
  | [] => []
  | (k, e) :: ps' =>
      match ser e with
      | Some t => (quote k +:+ ":" +:+ t) :: members ser ps'
      | None => members ser ps'
      end
  end.

(** SerializeJSONProperty without a replacer or a gap: [None] is the result
    [undefined].  A Number that is not finite is written [null]; in an array
    an element without a text is written [null]; in an object a property
    without a text is left out. *)
Fixpoint serialize (v : value) : option string :=
  match v with
  | VUndefined => None
  | VNull => Some "null"
  | VBool true => Some "true"
  | VBool false => Some "false"
  | VNum x => Some (if isFinite x then NumText.toString x else "null")
  | VStr s => Some (quote s)
  | VArr elements =>
      Some ("[" +:+ join ","
              (map (fun e => match serialize e with Some t => t | None => "null" end)
                   elements) +:+ "]")
  | VObj properties => Some ("{" +:+ join "," (members serialize properties) +:+ "}")
  end.

(** [JSON.stringify(v)] *)
Definition stringify (v : value) : option string := serialize v.

(** JSON white space: tab, line feed, carriage return, space. *)
Definition is_ws (c : ascii) : bool :=
  match c with
  | "009" | "010" | "013" | " " => true
  | _ => false
  end%char.

Fixpoint skip_ws (s : string) : string :=
  match s with
  | String c s' => if is_ws c then skip_ws s' else s
  | EmptyString => EmptyString
  end.

(** The code unit of a [\uXXXX] escape; [None] when a digit is not
    hexadecimal, and for a code unit of 256 or more, which a [string] of this
    embedding does not hold. *)
Definition unicode_escape (a b c d : ascii) : option ascii :=
  match NumParse.hex_digit a, NumParse.hex_digit b,
        NumParse.hex_digit c, NumParse.hex_digit d with
  | Some x, Some y, Some z, Some w =>
      if ((x =? 0) && (y =? 0))%N then Some (ascii_of_N (z * 16 + w)) else None
  | _, _, _, _ => None
  end.

(** The characters of a JSON string after its opening quote: the string
    denoted and the text after the closing quote. *)
Fixpoint string_body (s : string) : option (string * string) :=
  match s with
  | EmptyString => None
  | String c s' =>
      if Ascii.eqb c quote_mark then Some (EmptyString, s')
      else if Ascii.eqb c backslash then
        match s' with
        | String "u" (String a (String b (String x (String y s'')))) =>
            match unicode_escape a b x y, string_body s'' with
            | Some u, Some (t, rest) => Some (String u t, rest)
            | _, _ => None
            end
        | String e s'' =>
            let plain (u : ascii) :=
              match string_body s'' with
              | Some (t, rest) => Some (String u t, rest)
              | None => None
              end in
            if Ascii.eqb e quote_mark then plain quote_mark
            else if Ascii.eqb e backslash then plain backslash
            else match e with
                 | "/" => plain "/"
                 | "b" => plain "008"
                 | "f" => plain "012"
                 | "n" => plain "010"
                 | "r" => plain "013"
                 | "t" => plain "009"
                 | _ => None
                 end%char
        | EmptyString => None
        end
      else if (N_of_ascii c <? 32)%N then None
      else match string_body s' with
           | Some (t, rest) => Some (String c t, rest)
           | None => None
           end
  end.

(** A JSON number is [-]? int frac? exp?, read part by part; each part
    gives what it read and the text after it. *)
Definition minus_sign (s : string) : bool * string :=
  match s with
  | String c s' => if Ascii.eqb c "-" then (true, s') else (false, s)
  | EmptyString => (false, s)
  end.

(** int: [0], or digits that start with 1 to 9. *)
Definition int_part (s : string) : option (N * string) :=
  match s with
  | String c r =>
      if Ascii.eqb c "0" then Some (0%N, r)
      else match NumParse.digits s 0%N O with
           | (_, O, _) => None
           | (v, _, r') => Some (v, r')
           end
  | EmptyString => None
  end.

(** frac: [.] and at least one digit; the digits extend the mantissa [ip]. *)
Definition frac_part (ip : N) (s : string) : option (N * nat * string) :=
  match s with
  | String c r =>
      if Ascii.eqb c "." then
        match NumParse.digits r ip O with
        | (_, O, _) => None
        | (m, fc, r') => Some (m, fc, r')
        end
      else Some (ip, O, s)
  | EmptyString => Some (ip, O, s)
  end.

(** exp: [e] or [E], an optional sign, at least one digit. *)
Definition exp_part (s : string) : option (Z * string) :=
  match s with
  | String c r =>
      if (Ascii.eqb c "e" || Ascii.eqb c "E")%bool then
        let '(neg, r') := NumParse.sign r in
        match NumParse.digits r' 0%N O with
        | (_, O, _) => None
        | (v, _, r'') => Some (if neg then - Z.of_N v else Z.of_N v, r'')
        end
      else Some (0, s)
  | EmptyString => Some (0, s)
  end.

(** The number at the head of the text, its digits rounded as a decimal
    literal. *)
Definition number_token (s : string) : option (number * string) :=
  let '(neg, s1) := minus_sign s in
  match int_part s1 with
  | None => None
  | Some (ip, r1) =>
      match frac_part ip r1 with
      | None => None
      | Some (m, fc, r2) =>
          match exp_part r2 with
          | None => None
          | Some (e, r3) => Some (of_decimal neg m (e - Z.of_nat fc), r3)
          end
      end
  end.

(** CreateDataProperty on the object being built: a repeated key keeps its
    place and takes the later value. *)
Fixpoint set_property (k : string) (v : value) (ps : list (string * value))
  : list (string * value) :=
  match ps with
  | [] => [(k, v)]
  | (k', v') :: ps' =>
      if String.eqb k k' then (k, v) :: ps' else (k', v') :: set_property k v ps'
  end.

(** One JSON value at the head of the text, white space before it skipped.
    The fuel bounds the nesting and the number of members read. *)
Fixpoint parse_value (fuel : nat) (s : string) : option (value * string) :=
  match fuel with
  | O => None
  | S fuel' =>
      match skip_ws s with
      | EmptyString => None
      | String c r as t =>
          if Ascii.eqb c quote_mark then
            match string_body r with
            | Some (str, rest) => Some (VStr str, rest)
            | None => None
            end
          else match c with
          | "[" =>
              match skip_ws r with
              | String "]" rest => Some (VArr [], rest)
              | _ =>
                  match parse_elements fuel' r with
                  | Some (l, rest) => Some (VArr l, rest)
                  | None => None
                  end
              end
          | "{" =>
              match skip_ws r with
              | String "}" rest => Some (VObj [], rest)
              | _ =>
                  match parse_members fuel' r [] with
                  | Some (ps, rest) => Some (VObj ps, rest)
                  | None => None
                  end
              end
          | "n" => if Str.startsWith t "null" then Some (VNull, NumText.drop 4 t) else None
          | "t" => if Str.startsWith t "true" then Some (VBool true, NumText.drop 4 t) else None
          | "f" => if Str.startsWith t "false" then Some (VBool false, NumText.drop 5 t) else None
          | _ =>
              match number_token t with
              | Some (x, rest) => Some (VNum x, rest)
              | None => None
              end
          end%char
      end
  end
with parse_elements (fuel : nat) (s : string) : option (list value * string) :=
  match fuel with
  | O => None
  | S fuel' =>
      match parse_value fuel' s with
      | None => None
      | Some (v, r) =>
          match skip_ws r with
          | String "," r' =>
              match parse_elements fuel' r' with
              | Some (l, rest) => Some (v :: l, rest)
              | None => None
              end
          | String "]" rest => Some ([v], rest)
          | _ => None
          end
      end
  end
with parse_members (fuel : nat) (s : string) (acc : list (string * value))
  : option (list (string * value) * string) :=
  match fuel with
  | O => None
  | S fuel' =>
      match skip_ws s with
      | String c r =>
          if Ascii.eqb c quote_mark then
            match string_body r with
            | None => None
            | Some (k, r1) =>
                match skip_ws r1 with
                | String ":" r2 =>
                    match parse_value fuel' r2 with
                    | None => None
                    | Some (v, r3) =>
                        let acc' := set_property k v acc in
                        match skip_ws r3 with
                        | String "," r4 => parse_members fuel' r4 acc'
                        | String "}" rest => Some (acc', rest)
                        | _ => None
                        end
                    end
                | _ => None
                end
            end
          else None
      | EmptyString => None
      end
  end.

(** [JSON.parse(text)]: the text is one JSON value between white space, or a
    [SyntaxError] is thrown. *)
Definition parse (text : string) : completion value :=
  match parse_value (2 * String.length text + 4) text with
  | Some (v, rest) =>
      match skip_ws rest with
      | EmptyString => Normal v
      | _ => Throw SyntaxError
      end
  | None => Throw SyntaxError
  end.

End JSON.

(** ** The data model *)

(** A field typed [T?]: absent ([undefined]), [null], or a [T]. *)
Inductive maybe (A : Type) :=
| Undefined
| Null
| Val (a : A).
Arguments Undefined {A}.
Arguments Null {A}.
Arguments Val {A} a.

(** [v || fallback] on a string field: [undefined], [null] and the empty
    string are falsy. *)
Definition or_else (v : maybe string) (fallback : string) : string :=
  match v with
  | Val (String _ _ as s) => s
  | _ => fallback
  end.

(** [v === text] on a string field. *)
Definition strict_eq (v : maybe string) (text : string) : bool :=
  match v with
  | Val s => String.eqb s text
  | _ => false
  end.

Module AppSummary.
Record t := {
  appid : Z;
  name : maybe string;
  type : maybe string;
  has_requirements : bool
}.
End AppSummary.

Module Index.
Record t := {
  total_apps : Z;
  shard_size : Z;
  apps : list AppSummary.t
}.
End Index.

Module Requirement.
Record t := {
  os : maybe string;
  cpu : maybe string;
  gpu : maybe string;
  ram_gb : maybe number;
  vram_gb : maybe number;
  storage_gb : maybe number;
  directx : maybe number;
  opengl : maybe number;
  vulkan : bool;
  notes : maybe string
}.
End Requirement.

Module UserProfile.
Record t := {
  cpu : maybe string;
  gpu : maybe string;
  ram_gb : maybe number;
  vram_gb : maybe number;
  storage_gb : maybe number
}.

Definition text_property (k : string) (v : maybe string) : list (string * value) :=
  match v with
  | Undefined => []
  | Null => [(k, VNull)]
  | Val s => [(k, VStr s)]
  end.

Definition number_property (k : string) (v : maybe number) : list (string * value) :=
  match v with
  | Undefined => []
  | Null => [(k, VNull)]
  | Val x => [(k, VNum x)]
  end.

(** The properties of the profile object, in the order the form reader
    writes them; an absent field is no property. *)
Definition properties (p : t) : list (string * value) :=
  text_property "cpu" (cpu p) ++ text_property "gpu" (gpu p)
  ++ number_property "ram_gb" (ram_gb p)
  ++ number_property "vram_gb" (vram_gb p)
  ++ number_property "storage_gb" (storage_gb p).

(** The profile as the JS object that is saved. *)
Definition to_value (p : t) : value := VObj (properties p).
End UserProfile.

(** ** The page: inputs, session state, storage, network *)

(** The [value] of each input the code reads. *)
Record Els := {
  search : string;
  filter_mode : string;
  specCpu : string;
  specGpu : string;
  specRam : string;
  specVram : string;
  specStorage : string
}.

(** [state], once [init] has loaded the index. *)
Record State := {
  index : Index.t;
  filtered : list AppSummary.t;
  selected : value;
  specs : value;
  shardCache : gmap Z value
}.

Record Response := {
  ok : bool;
  body : string
}.

(** What a [fetch] comes to: the promise rejects, or a response arrives. *)
Inductive Fetched :=
| Rejected
| Responded (res : Response).

(** The world a call runs in: the session state, [localStorage], the URLs
    fetched so far (latest first), and the network, whose answer to a
    request may depend on the requests made before it. *)
Record World := {
  state : State;
  localStorage : gmap string string;
  requests : list string;
  network : list string -> string -> Fetched
}.

(** A call: from a world to a completion and the world it leaves.  A call
    runs to its end before the next one starts: the points where an async
    function waits are sequenced, not interleaved with other calls. *)
Definition Async (A : Type) : Type := World -> completion A * World.

Definition ret {A} (a : A) : Async A := fun w => (Normal a, w).
Definition throw {A} (e : error) : Async A := fun w => (Throw e, w).
Definition bind {A B} (m : Async A) (k : A -> Async B) : Async B :=
  fun w =>
    match m w with
    | (Normal a, w') => k a w'
    | (Throw e, w') => (Throw e, w')
    end.

Notation "'let*' x := m 'in' k" := (bind m (fun x => k))
  (at level 10, x name, m at level 100, k at level 200).

Definition get_state : Async State := fun w => (Normal (state w), w).

Definition set_state (st : State) : Async unit :=
  fun w => (Normal tt, {| state := st; localStorage := localStorage w;
                          requests := requests w; network := network w |}).

(** [await fetch(url, { cache: "no-store" })]: the request goes out each
    time; a rejected promise is thrown at the [await]. *)
Definition fetch (url : string) : Async Response :=
  fun w =>
    let w' := {| state := state w; localStorage := localStorage w;
                 requests := url :: requests w; network := network w |} in
    match network w (requests w) url with
    | Responded res => (Normal res, w')
    | Rejected => (Throw (TypeError "Failed to fetch"), w')
    end.

(** [await res.json()] *)
Definition json (res : Response) : Async value :=
  fun w => (JSON.parse (body res), w).

(** ** app.js *)

Definition SPECS_KEY : string := "steamSpecChecker_specs".

(** [localStorage.getItem(k)]: [None] is [null]. *)
Definition getItem (k : string) (ls : gmap string string) : option string :=
  ls !! k.

Definition setItem (k v : string) (ls : gmap string string) : gmap string string :=
  <[k := v]> ls.

Definition removeItem (k : string) (ls : gmap string string) : gmap string string :=
  delete k ls.

(** [try { body } catch { return fallback }] *)
Definition try_catch {A} (body : completion A) (fallback : A) : completion A :=
  match body with
  | Normal a => Normal a
  | Throw _ => Normal fallback
  end.

Definition loadSpecs (ls : gmap string string) : completion value :=
  try_catch
    match getItem SPECS_KEY ls with
    | None => Normal VNull
    | Some raw => if negb (Str.truthy raw) then Normal VNull else JSON.parse raw
    end
    VNull.

(** [setItem] stores the text of its argument; [JSON.stringify] gives
    [undefined] for a value without a JSON text. *)
Definition saveSpecs (specs : value) (ls : gmap string string) : gmap string string :=
  setItem SPECS_KEY
    match JSON.stringify specs with
    | Some text => text
    | None => "undefined"
    end ls.

Definition clearSpecs (ls : gmap string string) : gmap string string :=
  removeItem SPECS_KEY ls.

(** [n === null || n === undefined || Number.isNaN(n)] *)
Definition nullish_or_NaN (n : maybe number) : bool :=
  match n with
  | Null | Undefined => true
  | Val x => Num.isNaN x
  end.

(** ToNumber on a numeric field, as [>=] applies it. *)
Definition ToNumber (n : maybe number) : number :=
  match n with
  | Undefined => Num.NaN
  | Null => Num.zero
  | Val x => x
  end.

(** [`${n}`] *)
Definition ToString (n : maybe number) : string :=
  match n with
  | Undefined => "undefined"
  | Null => "null"
  | Val x => NumText.toString x
  end.

Definition fmtNum (n : maybe number) : string :=
  if nullish_or_NaN n then "Unknown" else ToString n.

Definition fmtGb (n : maybe number) : string :=
  if nullish_or_NaN n then "Unknown" else ToString n +:+ " GB".

Record Comparison := {
  status : string;
  text : string
}.

Definition compareNumeric (userVal reqVal : maybe number) : Comparison :=
  if nullish_or_NaN reqVal then
    {| status := "unknown"; text := "No numeric requirement" |}
  else if nullish_or_NaN userVal then
    {| status := "unknown"; text := "Your value missing" |}
  else if Num.ge (ToNumber userVal) (ToNumber reqVal) then
    {| status := "good";
       text := "Meets (" +:+ ToString userVal +:+ " vs " +:+ ToString reqVal +:+ ")" |}
  else
    {| status := "bad";
       text := "Below (" +:+ ToString userVal +:+ " vs " +:+ ToString reqVal +:+ ")" |}.

Definition badgeClass (status : string) : string :=
  if String.eqb status "good" then "badge good"
  else if String.eqb status "bad" then "badge bad"
  else "badge warn".

(** [appid / shardSize] on integers, as an exact quotient.  Integers below
    2^53 are binary64 values, and the floor of their rounded quotient is the
    floor of the exact one.  The shard size of an index is positive; for a
    zero shard size JS gives an infinity or NaN, which [Z] does not hold. *)
Definition quotient (a b : Z) : Q := (inject_Z a / inject_Z b)%Q.

Definition Math_floor (x : Q) : Z := Qfloor x.

Definition shardForAppid (st : State) (appid : Z) : Z :=
  let shardSize := Index.shard_size (index st) in
  Math_floor (quotient appid shardSize).

(** [String(shardId)] *)
Definition String_of (shardId : Z) : string := NumText.toString (Num.of_Z shardId).

Definition shard_url (shardId : Z) : string :=
  "data/shards/shard_" +:+ Str.padStart (String_of shardId) 5 "0" +:+ ".json".

Definition cache_set (shardId : Z) (data : value) : Async unit :=
  let* st := get_state in
  set_state {| index := index st; filtered := filtered st; selected := selected st;
               specs := specs st; shardCache := <[shardId := data]> (shardCache st) |}.

Definition loadShard (shardId : Z) : Async value :=
  let* st := get_state in
  match shardCache st !! shardId with
  | Some data => ret data
  | None =>
      let url := shard_url shardId in
      let* res := fetch url in
      if negb (ok res) then throw (Error ("Failed to load shard " +:+ String_of shardId))
      else
        let* data := json res in
        let* _ := cache_set shardId data in
        ret data
  end.

(** [x.appid === appid] for an element [x] of a shard; reading a property
    of [null] or [undefined] throws. *)
Definition has_appid (appid : Z) (x : value) : completion bool :=
  match x with
  | VNull | VUndefined => Throw (TypeError "Cannot read properties of null")
  | VObj properties =>
      Normal match List.find (fun kv => String.eqb (fst kv) "appid") properties with
             | Some (_, VNum n) => Num.equal n (Num.of_Z appid)
             | _ => false
             end
  | _ => Normal false
  end.

(** [shard.find(x => x.appid === appid)] on the elements of an array:
    the first element that has the appid, or [undefined]. *)
Fixpoint find_app (appid : Z) (elements : list value) : completion value :=
  match elements with
  | [] => Normal VUndefined
  | x :: rest =>
      match has_appid appid x with
      | Normal true => Normal x
      | Normal false => find_app appid rest
      | Throw e => Throw e
      end
  end.

(** JS truthiness of a JSON value. *)
Definition truthy (v : value) : bool :=
  match v with
  | VUndefined | VNull | VBool false => false
  | VNum x => negb (Num.isNaN x || Num.equal x Num.zero)
  | VStr s => Str.truthy s
  | _ => true
  end.

(** [selectApp] up to the assignment of [state.selected]; [renderDetail],
    which it calls last, only writes the page. *)
Definition selectApp (appid : Z) : Async unit :=
  let* st := get_state in
  let shardId := shardForAppid st appid in
  let* shard := loadShard shardId in
  let* app :=
    match shard with
    | VArr elements => fun w => (find_app appid elements, w)
    | _ => throw (TypeError "shard.find is not a function")
    end in
  let* st := get_state in
  set_state {| index := index st; filtered := filtered st;
               selected := if truthy app then app else VNull;
               specs := specs st; shardCache := shardCache st |}.

(** [applyFilters] up to the assignment of [state.filtered]; [renderList],
    which it calls last, only writes the page. *)
Definition applyFilters (els : Els) (st : State) : State :=
  let q := Str.toLowerCase (Str.trim (or_else (Val (search els)) EmptyString)) in
  let mode := filter_mode els in
  let apps := Index.apps (index st) in
  let apps :=
    if String.eqb mode "game"
    then List.filter (fun a => strict_eq (AppSummary.type a) "game") apps else apps in
  let apps :=
    if String.eqb mode "dlc"
    then List.filter (fun a => strict_eq (AppSummary.type a) "dlc") apps else apps in
  let apps :=
    if String.eqb mode "hasreqs"
    then List.filter (fun a => AppSummary.has_requirements a) apps else apps in
  let apps :=
    if Str.truthy q
    then List.filter
           (fun a => Str.includes
                       (Str.toLowerCase (or_else (AppSummary.name a) EmptyString)) q)
           apps
    else apps in
  {| index := index st; filtered := take 200 apps; selected := selected st;
     specs := specs st; shardCache := shardCache st |}.

(** The parts of a requirement card that the code computes. *)
Inductive ReqCard :=
| MissingCard (title : string)
| ComparedCard (title : string) (badge_class : string) (badge_label : string)
    (os cpu gpu : string) (ram vram storage : string)
    (directx opengl vulkan : string) (notes : option string).

(** [userSpecs?.field] *)
Definition optional_chain {A} (userSpecs : option UserProfile.t)
    (field : UserProfile.t -> maybe A) : maybe A :=
  match userSpecs with
  | None => Undefined
  | Some p => field p
  end.

(** The three comparisons of a card. *)
Definition ramCmp (req : Requirement.t) (userSpecs : option UserProfile.t) : Comparison :=
  compareNumeric (optional_chain userSpecs UserProfile.ram_gb) (Requirement.ram_gb req).
Definition vramCmp (req : Requirement.t) (userSpecs : option UserProfile.t) : Comparison :=
  compareNumeric (optional_chain userSpecs UserProfile.vram_gb) (Requirement.vram_gb req).
Definition stoCmp (req : Requirement.t) (userSpecs : option UserProfile.t) : Comparison :=
  compareNumeric (optional_chain userSpecs UserProfile.storage_gb) (Requirement.storage_gb req).

(** The status handed to [badgeClass] for the summary badge. *)
Definition tier_status (req : Requirement.t) (userSpecs : option UserProfile.t) : string :=
  if (String.eqb (status (ramCmp req userSpecs)) "bad"
      || String.eqb (status (vramCmp req userSpecs)) "bad"
      || String.eqb (status (stoCmp req userSpecs)) "bad")%bool
  then "bad" else "good".

(** U+00B7 *)
Definition middle_dot : string := String (ascii_of_N 183) EmptyString.

(** [req] and [userSpecs] are [None] for [null]. *)
Definition renderReqCard (title : string) (req : option Requirement.t)
    (userSpecs : option UserProfile.t) : ReqCard :=
  match req with
  | None => MissingCard title
  | Some req =>
      let row (cmp : Comparison) (n : maybe number) :=
        fmtGb n +:+ " " +:+
        match userSpecs with
        | Some _ => " " +:+ middle_dot +:+ " " +:+ text cmp
        | None => EmptyString
        end in
      ComparedCard title
        (badgeClass (tier_status req userSpecs))
        match userSpecs with Some _ => "Compared" | None => "Set your specs" end
        (or_else (Requirement.os req) "Unknown")
        (or_else (Requirement.cpu req) "Unknown")
        (or_else (Requirement.gpu req) "Unknown")
        (row (ramCmp req userSpecs) (Requirement.ram_gb req))
        (row (vramCmp req userSpecs) (Requirement.vram_gb req))
        (row (stoCmp req userSpecs) (Requirement.storage_gb req))
        (fmtNum (Requirement.directx req))
        (fmtNum (Requirement.opengl req))
        (if Requirement.vulkan req then "Yes" else "Unknown or no")
        match Requirement.notes req with
        | Val (String _ _ as n) => Some n
        | _ => None
        end
  end.

(** [toNum] of [readSpecsFromForm] *)
Definition toNum (v : string) : maybe number :=
  let n := NumParse.StringToNumber v in
  if Num.isFinite n then Val n else Null.

(** [text.trim() || null] *)
Definition trimmed_or_null (v : string) : maybe string :=
  match Str.trim v with
  | EmptyString => Null
  | t => Val t
  end.

Definition readSpecsFromForm (els : Els) : UserProfile.t :=
  {| UserProfile.cpu := trimmed_or_null (specCpu els);
     UserProfile.gpu := trimmed_or_null (specGpu els);
     UserProfile.ram_gb := toNum (specRam els);
     UserProfile.vram_gb := toNum (specVram els);
     UserProfile.storage_gb := toNum (specStorage els) |}.

(** The Save button: [state.specs = readSpecsFromForm(); saveSpecs(state.specs)]. *)
Definition onSaveSpecs (els : Els) (w : World) : World :=
  let st := state w in
  let profile := UserProfile.to_value (readSpecsFromForm els) in
  {| state := {| index := index st; filtered := filtered st; selected := selected st;
                 specs := profile; shardCache := shardCache st |};
     localStorage := saveSpecs profile (localStorage w);
     requests := requests w; network := network w |}.

(** The Clear button: [state.specs = null; clearSpecs()]. *)
Definition onClearSpecs (w : World) : World :=
  let st := state w in
  {| state := {| index := index st; filtered := filtered st; selected := selected st;
                 specs := VNull; shardCache := shardCache st |};
     localStorage := clearSpecs (localStorage w);
     requests := requests w; network := network w |}.

(** ** The catalog filter as the specification words it *)

Module FilterSpec.

Inductive Mode := all | game | dlc | hasreqs.

(** The [value] of the category selector for each mode. *)
Definition mode_value (m : Mode) : string :=
  match m with
  | all => "all"
  | game => "game"
  | dlc => "dlc"
  | hasreqs => "hasreqs"
  end.

(** (a) the category an entry must be in. *)
Definition in_category (m : Mode) (a : AppSummary.t) : Prop :=
  match m with
  | all => True
  | game => AppSummary.type a = Val "game"
  | dlc => AppSummary.type a = Val "dlc"
  | hasreqs => AppSummary.has_requirements a = true
  end.

(** [text] contains [query] as a substring, letter case apart. *)
Definition contains_ignoring_case (text query : string) : Prop :=
  exists before after,
    Str.toLowerCase text = before +:+ Str.toLowerCase query +:+ after.

(** (b) the name matches the trimmed query; an empty trimmed query matches
    every entry.  An entry without a name has the empty name. *)
Definition matches_query (query : string) (a : AppSummary.t) : Prop :=
  Str.trim query = EmptyString \/
  contains_ignoring_case (or_else (AppSummary.name a) EmptyString) (Str.trim query).

(** The two tests as the filter can run them. *)
Definition in_categoryb (m : Mode) (a : AppSummary.t) : bool :=
  match m with
  | all => true
  | game => strict_eq (AppSummary.type a) "game"
  | dlc => strict_eq (AppSummary.type a) "dlc"
  | hasreqs => AppSummary.has_requirements a
  end.

Definition matches_queryb (query : string) (a : AppSummary.t) : bool :=
  match Str.trim query with
  | EmptyString => true
  | t => Str.includes (Str.toLowerCase (or_else (AppSummary.name a) EmptyString))
                      (Str.toLowerCase t)
  end.

(** (a), then (b), then (c) the first 200 in the order of the index. *)
Definition result (m : Mode) (query : string) (apps : list AppSummary.t)
  : list AppSummary.t :=
  take 200 (List.filter (matches_queryb query) (List.filter (in_categoryb m) apps)).

End FilterSpec.

(** The test an entry passes to be listed, for the inputs as they are: the
    category selector may hold any text. *)
Definition passes (els : Els) (a : AppSummary.t) : bool :=
  (if String.eqb (filter_mode els) "game" then strict_eq (AppSummary.type a) "game" else true)
  && (if String.eqb (filter_mode els) "dlc" then strict_eq (AppSummary.type a) "dlc" else true)
  && (if String.eqb (filter_mode els) "hasreqs" then AppSummary.has_requirements a else true)
  && FilterSpec.matches_queryb (search els) a.

(** The state whose index lists [apps]. *)
Definition with_apps (apps : list AppSummary.t) (st : State) : State :=
  {| index := {| Index.total_apps := Index.total_apps (index st);
                 Index.shard_size := Index.shard_size (index st);
                 Index.apps := apps |};
     filtered := filtered st; selected := selected st; specs := specs st;
     shardCache := shardCache st |}.

(** ** Vocabulary of the properties *)

(** A numeric field that holds no number: absent, [null] or [NaN]. *)
Definition absent_or_NaN (v : maybe number) : Prop :=
  v = Undefined \/ v = Null \/ v = Val Num.NaN.

(** A numeric field that holds a number. *)
Definition is_number (v : maybe number) : Prop :=
  exists x, v = Val x /\ Num.isNaN x = false.

(** At least one of the three comparisons of a card is [bad]. *)
Definition some_comparison_bad (req : Requirement.t)
    (userSpecs : option UserProfile.t) : Prop :=
  status (ramCmp req userSpecs) = "bad" \/
  status (vramCmp req userSpecs) = "bad" \/
  status (stoCmp req userSpecs) = "bad".

Definition badge_of (card : ReqCard) : option string :=
  match card with
  | MissingCard _ => None
  | ComparedCard _ badge _ _ _ _ _ _ _ _ _ _ _ => Some badge
  end.

(** Text that follows a member of a JSON object: a comma or the closing
    brace. *)
Definition after_member (rest : string) : Prop :=
  match rest with
  | String c _ => c = ","%char \/ c = "}"%char
  | EmptyString => False
  end.

(** A Number that its JSON text gives back: it is finite, and the text
    [JSON.stringify] writes for it is read by [JSON.parse] as the same
    Number.  The finite binary64 values are such, except [-0], which is
    written [0]. *)
Definition reads_back (x : number) : bool :=
  Num.isFinite x &&
  match JSON.number_token (NumText.toString x) with
  | Some (y, EmptyString) => Num.eqb y x
  | _ => false
  end.

(** The first code unit of a JSON number. *)
Definition number_start (c : ascii) : bool :=
  Ascii.eqb c "-" || match NumParse.digit c with Some _ => true | None => false end.

(** A property value that a profile holds and that is stored as it is. *)
Definition stored_as_is (v : value) : Prop :=
  match v with
  | VNull | VStr _ => True
  | VNum x => reads_back x = true
  | _ => False
  end.

(** The properties that [JSON.parse] builds from the members of an object,
    added in turn to those it has. *)
Definition add_properties (ps acc : list (string * value)) : list (string * value) :=
  fold_left (fun acc kv => JSON.set_property (fst kv) (snd kv) acc) ps acc.

(** A numeric field that is stored as it is. *)
Definition storable_field (v : maybe number) : Prop :=
  match v with
  | Val x => reads_back x = true
  | _ => True
  end.

Definition storable (p : UserProfile.t) : Prop :=
  storable_field (UserProfile.ram_gb p) /\
  storable_field (UserProfile.vram_gb p) /\
  storable_field (UserProfile.storage_gb p).

(** The world with another session state. *)
Definition with_state (st : State) (w : World) : World :=
  {| state := st; localStorage := localStorage w;
     requests := requests w; network := network w |}.

(** What can happen in a session, one call at a time: a shard is asked for,
    an app is selected, the list is filtered, the profile is saved or
    cleared. *)
Inductive step : World -> World -> Prop :=
| step_loadShard (shardId : Z) (w : World) : step w (snd (loadShard shardId w))
| step_selectApp (appid : Z) (w : World) : step w (snd (selectApp appid w))
| step_applyFilters (els : Els) (w : World) :
    step w (with_state (applyFilters els (state w)) w)
| step_saveSpecs (els : Els) (w : World) : step w (onSaveSpecs els w)
| step_clearSpecs (w : World) : step w (onClearSpecs w).

(** ** Example data *)

Module Examples.

Definition index_1000 : Index.t :=
  {| Index.total_apps := 3; Index.shard_size := 1000;
     Index.apps :=
       [ {| AppSummary.appid := 10; AppSummary.name := Val "Counter-Strike";
            AppSummary.type := Val "game"; AppSummary.has_requirements := true |};
         {| AppSummary.appid := 1245; AppSummary.name := Val "Strike Pack";
            AppSummary.type := Val "dlc"; AppSummary.has_requirements := false |};
         {| AppSummary.appid := 2050; AppSummary.name := Null;
            AppSummary.type := Val "game"; AppSummary.has_requirements := false |} ] |}.

Definition fresh_state : State :=
  {| index := index_1000; filtered := []; selected := VNull; specs := VNull;
     shardCache := ∅ |}.

(** A network that answers every request with the same response. *)
Definition world_answering (res : Response) : World :=
  {| state := fresh_state; localStorage := ∅; requests := [];
     network := fun _ _ => Responded res |}.

Definition shard_1_response : Response :=
  {| ok := true;
     body := String "[" (String "{" (JSON.quote "appid" +:+ ":1245}]")) |}.

Definition not_found_response : Response :=
  {| ok := false; body := "Not Found" |}.

Definition empty_form : Els :=
  {| search := EmptyString; filter_mode := "all";
     specCpu := EmptyString; specGpu := EmptyString;
     specRam := EmptyString; specVram := EmptyString; specStorage := EmptyString |}.

Definition strike_dlc_query : Els :=
  {| search := " STRIKE "; filter_mode := "dlc";
     specCpu := EmptyString; specGpu := EmptyString;
     specRam := EmptyString; specVram := EmptyString; specStorage := EmptyString |}.

Definition gaming_pc : UserProfile.t :=
  {| UserProfile.cpu := Val "Ryzen 5"; UserProfile.gpu := Null;
     UserProfile.ram_gb := Val (Num.of_Z 16);
     UserProfile.vram_gb := Val (NumParse.StringToNumber "7.5");
     UserProfile.storage_gb := Null |}.

Definition minus_zero_form : Els :=
  {| search := EmptyString; filter_mode := "all";
     specCpu := EmptyString; specGpu := EmptyString;
     specRam := "-0"; specVram := "4"; specStorage := "256" |}.


Definition needs_8_gb : Requirement.t :=
  {| Requirement.os := Val "Windows 10"; Requirement.cpu := Undefined;
     Requirement.gpu := Undefined;
     Requirement.ram_gb := Val (Num.of_Z 8); Requirement.vram_gb := Undefined;
     Requirement.storage_gb := Val (Num.of_Z 20);
     Requirement.directx := Undefined; Requirement.opengl := Undefined;
     Requirement.vulkan := false; Requirement.notes := Undefined |}.

End Examples.

(** ** More of app.js: the index, the list, the profile dialog *)

Definition loadIndex : Async value :=
  let* res := fetch "data/index.json" in
  if negb (ok res) then throw (Error "Failed to load index")
  else json res.

(** What [renderList] writes: the summary line and one item per listed
    entry.  [item_appid] is the appid that a click on the item selects. *)
Record ListItem := {
  item_title : string;
  item_sub : string;
  item_badge_class : string;
  item_badge_text : string;
  item_appid : Z
}.

Record ListView := {
  meta_text : string;
  items : list ListItem
}.

Definition list_item (a : AppSummary.t) : ListItem :=
  {| item_title :=
       or_else (AppSummary.name a)
         ("(appid " +:+ String_of (AppSummary.appid a) +:+ ")");
     item_sub :=
       or_else (AppSummary.type a) "unknown" +:+ " " +:+ middle_dot
       +:+ " appid " +:+ String_of (AppSummary.appid a);
     item_badge_class :=
       if AppSummary.has_requirements a then "badge good" else "badge warn";
     item_badge_text :=
       if AppSummary.has_requirements a then "Requirements" else "No reqs";
     item_appid := AppSummary.appid a |}.

Definition renderList (st : State) : ListView :=
  let total := Index.total_apps (index st) in
  let shown := Z.of_nat (length (filtered st)) in
  {| meta_text := "Loaded " +:+ String_of total +:+ " apps. Showing "
                  +:+ String_of shown +:+ " results.";
     items := map list_item (filtered st) |}.

(** [v.key] for a key that is no built-in property: the property of an
    object, [undefined] on any other value that is not [null] or
    [undefined]. *)
Definition get_property (v : value) (k : string) : value :=
  match v with
  | VObj properties =>
      match List.find (fun kv => String.eqb (fst kv) k) properties with
      | Some (_, x) => x
      | None => VUndefined
      end
  | _ => VUndefined
  end.

(** ToString of a JSON value, as an assignment to [input.value] applies
    it; an array joins the texts of its elements, [null] and [undefined]
    elements being empty. *)
Fixpoint value_to_string (v : value) : string :=
  match v with
  | VUndefined => "undefined"
  | VNull => "null"
  | VBool true => "true"
  | VBool false => "false"
  | VNum x => NumText.toString x
  | VStr s => s
  | VArr elements =>
      JSON.join ","
        (map (fun e => match e with
                       | VUndefined | VNull => EmptyString
                       | _ => value_to_string e
                       end) elements)
  | VObj _ => "[object Object]"
  end.

(** [v || fallback] and [v ?? fallback] on JSON values. *)
Definition value_or (v fallback : value) : value :=
  if truthy v then v else fallback.

Definition value_nullish_or (v fallback : value) : value :=
  match v with
  | VUndefined | VNull => fallback
  | _ => v
  end.

(** [openModal] up to the five assignments to the inputs of the form; each
    input keeps the text it is given.  Showing the dialog only touches the
    page. *)
Definition openModal (st : State) (els : Els) : Els :=
  let s := value_or (specs st) (VObj []) in
  {| search := search els;
     filter_mode := filter_mode els;
     specCpu := value_to_string (value_or (get_property s "cpu") (VStr EmptyString));
     specGpu := value_to_string (value_or (get_property s "gpu") (VStr EmptyString));
     specRam :=
       value_to_string (value_nullish_or (get_property s "ram_gb") (VStr EmptyString));
     specVram :=
       value_to_string (value_nullish_or (get_property s "vram_gb") (VStr EmptyString));
     specStorage :=
       value_to_string (value_nullish_or (get_property s "storage_gb") (VStr EmptyString)) |}.

(** The detail view that [renderDetail] sets up: the app it shows, the
    platform tab that is active, and the profile it compares against, which
    is [state.specs] as it was when [renderDetail] was called.  A view
    replaces the one before it. *)
Record Detail := {
  detail_app : value;
  detail_platform : string;
  detail_specs : value
}.

Definition renderDetail (app : value) (st : State) : Detail :=
  {| detail_app := app; detail_platform := "pc"; detail_specs := specs st |}.

(** The [data-p] attributes of the three tab buttons that [draw] writes. *)
Definition tabs : list string := ["pc"; "mac"; "linux"].

(** A click on a platform tab: [platform = btn.getAttribute("data-p")], and
    the view is drawn again. *)
Definition click_tab (p : string) (d : Detail) : Detail :=
  {| detail_app := detail_app d; detail_platform := p;
     detail_specs := detail_specs d |}.

(** [if (state.selected) renderDetail(state.selected)]: the detail on the
    page afterwards; [None] is the page before any detail was rendered. *)
Definition rerender (st : State) (page : option Detail) : option Detail :=
  if truthy (selected st) then Some (renderDetail (selected st) st) else page.

(** What the user can do, with the detail on the page: click an item of the
    list, press Save or Clear in the dialog, click a platform tab, change
    the search or the category.  Each step runs to its end before the next
    one starts. *)
Inductive page_step : World * option Detail -> World * option Detail -> Prop :=
| page_select (appid : Z) (w : World) (page : option Detail) :
    page_step (w, page)
      (snd (selectApp appid w),
       match fst (selectApp appid w) with
       | Normal _ => rerender (state (snd (selectApp appid w))) page
       | Throw _ => page
       end)
| page_save (els : Els) (w : World) (page : option Detail) :
    page_step (w, page)
      (onSaveSpecs els w, rerender (state (onSaveSpecs els w)) page)
| page_clear (w : World) (page : option Detail) :
    page_step (w, page) (onClearSpecs w, rerender (state (onClearSpecs w)) page)
| page_tab (p : string) (w : World) (d : Detail) :
    p ∈ tabs ->
    page_step (w, Some d) (w, Some (click_tab p d))
| page_filter (els : Els) (w : World) (page : option Detail) :
    page_step (w, page) (with_state (applyFilters els (state w)) w, page).

(** The detail on the page is the selected app, compared against the
    profile in memory. *)
Definition shows_selection (s : World * option Detail) : Prop :=
  truthy (selected (state (fst s))) = true ->
  exists d, snd s = Some d /\
    detail_app d = selected (state (fst s)) /\
    detail_specs d = specs (state (fst s)).

(** The active tab of the detail on the page is one of the three. *)
Definition on_a_tab (s : World * option Detail) : Prop :=
  forall d, snd s = Some d -> detail_platform d ∈ tabs.

(** ** Vocabulary of the further properties *)

(** The first and the last code unit of a string. *)
Definition first_char (s : string) : option ascii :=
  match s with
  | String c _ => Some c
  | EmptyString => None
  end.

Fixpoint last_char (s : string) : option ascii :=
  match s with
  | EmptyString => None
  | String c EmptyString => Some c
  | String _ s' => last_char s'
  end.

(** No white space at either end. *)
Definition no_outer_space (s : string) : Prop :=
  (forall c, first_char s = Some c -> Str.is_white_space c = false) /\
  (forall c, last_char s = Some c -> Str.is_white_space c = false).

(** Only white space. *)
Fixpoint all_white_space (s : string) : bool :=
  match s with
  | EmptyString => true
  | String c s' => Str.is_white_space c && all_white_space s'
  end.

(** A text field as the form reader leaves it: [null], or text that is not
    empty and has no white space at either end. *)
Definition trimmed_field (v : maybe string) : Prop :=
  v = Null \/ exists t, v = Val t /\ t <> EmptyString /\ no_outer_space t.

(** A numeric field as the form reader leaves it: [null] or a finite
    number. *)
Definition finite_field (v : maybe number) : Prop :=
  v = Null \/ exists x, v = Val x /\ Num.isFinite x = true.

(** Text made of the code unit ["0"] only. *)
Fixpoint all_zeros (s : string) : bool :=
  match s with
  | EmptyString => true
  | String c s' => Ascii.eqb c "0" && all_zeros s'
  end.

(** The label of the summary badge and the RAM, VRAM and storage rows of a
    card. *)
Definition label_of (card : ReqCard) : option string :=
  match card with
  | MissingCard _ => None
  | ComparedCard _ _ label _ _ _ _ _ _ _ _ _ _ => Some label
  end.

Definition rows_of (card : ReqCard) : list string :=
  match card with
  | MissingCard _ => []
  | ComparedCard _ _ _ _ _ _ ram vram storage _ _ _ _ => [ram; vram; storage]
  end.

(** The JSON value of a field of the profile object; an absent property
    reads as [undefined]. *)
Definition text_value (v : maybe string) : value :=
  match v with
  | Undefined => VUndefined
  | Null => VNull
  | Val s => VStr s
  end.

Definition number_value (v : maybe number) : value :=
  match v with
  | Undefined => VUndefined
  | Null => VNull
  | Val x => VNum x
  end.

(** A Number that the form gives back: the text an input shows for it is
    read by [Number] as the same Number. *)
Definition shown_reads_back (x : number) : Prop :=
  NumParse.StringToNumber (NumText.toString x) = x.

(** What reading the form gives for a numeric field that was filled from a
    stored one: a stored [null] comes back as 0. *)
Definition reopened (stored read : maybe number) : Prop :=
  match stored with
  | Val x => shown_reads_back x -> read = Val x
  | _ => read = Val Num.zero
  end.

(** The inputs with another search text. *)
Definition with_search (q : string) (els : Els) : Els :=
  {| search := q; filter_mode := filter_mode els;
     specCpu := specCpu els; specGpu := specGpu els; specRam := specRam els;
     specVram := specVram els; specStorage := specStorage els |}.

(** The state with another stored profile in memory. *)
Definition with_specs (v : value) (st : State) : State :=
  {| index := index st; filtered := filtered st; selected := selected st;
     specs := v; shardCache := shardCache st |}.

(** The index with another shard size. *)
Definition state_of_index (i : Index.t) : State :=
  {| index := i; filtered := []; selected := VNull; specs := VNull;
     shardCache := ∅ |}.

Module MoreExamples.

Definition bad_json_response : Response :=
  {| ok := true; body := "<html>" |}.


Definition padded_form : Els :=
  {| search := "  Strike "; filter_mode := "everything";
     specCpu := "  Ryzen 5  "; specGpu := "   ";
     specRam := " 16 "; specVram := "   "; specStorage := "lots" |}.

Definition needs_32_gb : Requirement.t :=
  {| Requirement.os := Undefined; Requirement.cpu := Undefined;
     Requirement.gpu := Undefined;
     Requirement.ram_gb := Val (Num.of_Z 32); Requirement.vram_gb := Null;
     Requirement.storage_gb := Undefined;
     Requirement.directx := Undefined; Requirement.opengl := Undefined;
     Requirement.vulkan := false; Requirement.notes := Undefined |}.

(** Select app 1245, go to the macOS tab, save a profile. *)
Definition app_1245 : value := VObj [("appid", VNum (Num.of_Z 1245))].

Definition after_select : World * option Detail :=
  let w := snd (selectApp 1245 (Examples.world_answering Examples.shard_1_response)) in
  (w, Some (renderDetail app_1245 (state w))).

Definition on_mac : World * option Detail :=
  let w := snd (selectApp 1245 (Examples.world_answering Examples.shard_1_response)) in
  (w, Some (click_tab "mac" (renderDetail app_1245 (state w)))).

Definition after_save : World * option Detail :=
  (onSaveSpecs padded_form (fst on_mac),
   rerender (state (onSaveSpecs padded_form (fst on_mac))) (snd on_mac)).

End MoreExamples.

(** ** Rounding to the nearest Number, stated on exact quotients *)

(** The place of [a / d] among the integers: its floor, and where it lies
    between the floor and the next integer. *)
Definition place (a d : Z) : Z * location :=
  (a / d,
   if a mod d =? 0 then loc_Exact else loc_Inexact (2 * (a mod d) ?= d)).




(** ** Decimal digits *)

(** The value of the digits [d] read after the value [acc]. *)
Fixpoint uint_value (d : Decimal.uint) (acc : N) : N :=
  match d with
  | Decimal.Nil => acc
  | Decimal.D0 l => uint_value l (acc * 10 + 0)
  | Decimal.D1 l => uint_value l (acc * 10 + 1)
  | Decimal.D2 l => uint_value l (acc * 10 + 2)
  | Decimal.D3 l => uint_value l (acc * 10 + 3)
  | Decimal.D4 l => uint_value l (acc * 10 + 4)
  | Decimal.D5 l => uint_value l (acc * 10 + 5)
  | Decimal.D6 l => uint_value l (acc * 10 + 6)
  | Decimal.D7 l => uint_value l (acc * 10 + 7)
  | Decimal.D8 l => uint_value l (acc * 10 + 8)
  | Decimal.D9 l => uint_value l (acc * 10 + 9)
  end%N.

(** Text made of decimal digits only, and its value read after [acc]. *)
Fixpoint is_digits (s : string) : bool :=
  match s with
  | EmptyString => true
  | String c r =>
      match NumParse.digit c with Some _ => is_digits r | None => false end
  end.

Fixpoint str_value (s : string) (acc : N) : N :=
  match s with
  | EmptyString => acc
  | String c r =>
      match NumParse.digit c with
      | Some d => str_value r (acc * 10 + d)
      | None => acc
      end
  end.

(** Text that does not go on with a digit. *)
Definition no_digit_ahead (rest : string) : Prop :=
  match rest with
  | EmptyString => True
  | String c _ => NumParse.digit c = None
  end.

(** ** Reading a numeric input *)

(** Text that [Number] reads as a numeric literal, white space around it
    allowed, the empty text included: its [Number] is not [NaN]. *)
Definition numeric_text (text : string) : bool :=
  negb (Num.isNaN (NumParse.StringToNumber text)).

(** What the form reader makes of the text of a numeric input. *)
Definition numeric_reading (text : string) (field : maybe number) : Prop :=
  (text = EmptyString -> field = Val Num.zero) /\
  (field = Null <->
     numeric_text text = false \/
     exists s, NumParse.StringToNumber text = S754_infinity s) /\
  (forall x, field = Val x <->
     NumParse.StringToNumber text = x /\ Num.isFinite x = true) /\
  field <> Undefined.

Module Inputs.

(** A form whose RAM is the literal [Infinity], whose VRAM is a decimal
    beyond the range of a Number, and whose storage is no literal. *)
Definition beyond_range_form : Els :=
  {| search := EmptyString; filter_mode := "all";
     specCpu := EmptyString; specGpu := EmptyString;
     specRam := "Infinity"; specVram := "1e400"; specStorage := "lots" |}.

Definition half_filled_form : Els :=
  {| search := EmptyString; filter_mode := "all";
     specCpu := EmptyString; specGpu := EmptyString;
     specRam := EmptyString; specVram := " 7.5 "; specStorage := "0x10" |}.

End Inputs.

(** ** Calls that overlap

    An async function runs up to its next [await] and is resumed later; in
    between, a click can start another call.  Here a call is cut at its
    [await]s into segments, and each segment runs to its end. *)

(** A call that is waiting.  [loadShard] waits at [await fetch(url)], the
    request sent and its outcome on the way, and at [await res.json()];
    [selectApp] waits at [await loadShard(shardId)] for what [loadShard]
    came to.  The caller of a [loadShard] is the appid of the [selectApp]
    that called it, or none. *)
Inductive Waiting :=
| AwaitFetch (shardId : Z) (outcome : completion Response) (caller : option Z)
| AwaitJson (shardId : Z) (outcome : completion value) (caller : option Z)
| AwaitShard (appid : Z) (outcome : completion value).

(** What a segment of [loadShard] comes to: the call has ended, with its
    completion, or it waits again. *)
Inductive Progress :=
| Settled (c : completion value)
| Suspended (t : Waiting).

(** [loadShard] from the call to [await fetch(url)]: the cache test and, on
    a miss, the request. *)
Definition loadShard_start (shardId : Z) (caller : option Z) (w : World)
  : Progress * World :=
  match shardCache (state w) !! shardId with
  | Some data => (Settled (Normal data), w)
  | None =>
      let '(outcome, w') := fetch (shard_url shardId) w in
      (Suspended (AwaitFetch shardId outcome caller), w')
  end.

(** [loadShard] from the outcome of the request to [await res.json()]. *)
Definition loadShard_fetched (shardId : Z) (outcome : completion Response)
    (caller : option Z) (w : World) : Progress * World :=
  match outcome with
  | Throw e => (Settled (Throw e), w)
  | Normal res =>
      if negb (ok res)
      then (Settled (Throw (Error ("Failed to load shard " +:+ String_of shardId))), w)
      else let '(parsed, w') := json res w in
           (Suspended (AwaitJson shardId parsed caller), w')
  end.

(** [loadShard] from the parsed body to its end: the write to the cache. *)
Definition loadShard_parsed (shardId : Z) (outcome : completion value) (w : World)
  : Progress * World :=
  match outcome with
  | Throw e => (Settled (Throw e), w)
  | Normal data => (Settled (Normal data), snd (cache_set shardId data w))
  end.

(** [selectApp] from [await loadShard(shardId)] to its end. *)
Definition selectApp_resumed (appid : Z) (outcome : completion value) : Async unit :=
  match outcome with
  | Throw e => throw e
  | Normal shard =>
      let* app :=
        match shard with
        | VArr elements => fun w => (find_app appid elements, w)
        | _ => throw (TypeError "shard.find is not a function")
        end in
      let* st := get_state in
      set_state {| index := index st; filtered := filtered st;
                   selected := if truthy app then app else VNull;
                   specs := specs st; shardCache := shardCache st |}
  end.

(** The calls left waiting by a segment of [loadShard]: the call itself, or
    the [selectApp] that called it, which is handed the completion. *)
Definition left_waiting (caller : option Z) (p : Progress) : list Waiting :=
  match p with
  | Suspended t => [t]
  | Settled c =>
      match caller with
      | Some appid => [AwaitShard appid c]
      | None => []
      end
  end.

(** The session: the world and the calls that are waiting. *)
Definition Session : Type := World * list Waiting.

(** A call of [loadShard], by [selectApp] for an appid or on its own. *)
Definition call_loadShard (shardId : Z) (caller : option Z) (s : Session) : Session :=
  let '(p, w') := loadShard_start shardId caller (fst s) in
  (w', left_waiting caller p ++ snd s).

(** A click on a list item: [selectApp(appid)] up to its [await]. *)
Definition call_selectApp (appid : Z) (s : Session) : Session :=
  call_loadShard (shardForAppid (state (fst s)) appid) (Some appid) s.

(** The next segment of a waiting call. *)
Definition resumed (t : Waiting) (w : World) : World * list Waiting :=
  match t with
  | AwaitFetch shardId outcome caller =>
      let '(p, w') := loadShard_fetched shardId outcome caller w in
      (w', left_waiting caller p)
  | AwaitJson shardId outcome caller =>
      let '(p, w') := loadShard_parsed shardId outcome w in
      (w', left_waiting caller p)
  | AwaitShard appid outcome => (snd (selectApp_resumed appid outcome w), [])
  end.

(** The waiting call at position [i] is resumed; any of them can be next. *)
Definition resume (i : nat) (s : Session) : Session :=
  match snd s !! i with
  | Some t =>
      let '(w', ts) := resumed t (fst s) in
      (w', ts ++ delete i (snd s))
  | None => s
  end.

(** What can happen in a session when calls overlap. *)
Inductive overlap_step : Session -> Session -> Prop :=
| overlap_loadShard (shardId : Z) (s : Session) :
    overlap_step s (call_loadShard shardId None s)
| overlap_selectApp (appid : Z) (s : Session) :
    overlap_step s (call_selectApp appid s)
| overlap_resume (i : nat) (s : Session) :
    overlap_step s (resume i s)
| overlap_applyFilters (els : Els) (s : Session) :
    overlap_step s (with_state (applyFilters els (state (fst s))) (fst s), snd s)
| overlap_saveSpecs (els : Els) (s : Session) :
    overlap_step s (onSaveSpecs els (fst s), snd s)
| overlap_clearSpecs (s : Session) :
    overlap_step s (onClearSpecs (fst s), snd s).

(** A waiting [loadShard] for the shard id: a call that missed the cache
    and will write its entry. *)
Definition fetches (shardId : Z) (t : Waiting) : bool :=
  match t with
  | AwaitFetch s _ _ | AwaitJson s _ _ => s =? shardId
  | AwaitShard _ _ => false
  end.

(** No call for the shard id is on its way to the cache. *)
Definition none_fetching (shardId : Z) (s : Session) : Prop :=
  Forall (fun t => fetches shardId t = false) (snd s).

Module Overlap.

Definition first_body : Response :=
  {| ok := true; body := String "[" (String "{" (JSON.quote "appid" +:+ ":1245}]")) |}.

Definition second_body : Response :=
  {| ok := true; body := "[]" |}.

(** A network whose shard document changes after the first request. *)
Definition changing_world : World :=
  {| state := Examples.fresh_state; localStorage := ∅; requests := [];
     network := fun sent _ =>
       match sent with [] => Responded first_body | _ => Responded second_body end |}.

(** Two clicks on apps of shard 1 before any response: both calls miss the
    cache and send their request. *)
Definition two_clicks : Session :=
  call_selectApp 1300 (call_selectApp 1245 (changing_world, [])).

(** The call of the first click runs to the end of its [loadShard]. *)
Definition first_loaded : Session := resume 0 (resume 1 two_clicks).

(** Then the call of the second click does. *)
Definition second_loaded : Session := resume 0 (resume 1 first_loaded).

End Overlap.

(** ** The profile through JSON *)











(** * Properties *)

Local Arguments String.append !s1 s2 : simpl nomatch.

(** ** Numbers *)

Lemma SFcompare_None (x y : number) :
  SFcompare x y = None -> Num.isNaN x = true \/ Num.isNaN y = true.
Proof.
  destruct x as [sx|sx| |sx mx ex], y as [sy|sy| |sy my ey]; simpl;
    try discriminate; auto.
Qed.

Lemma ge_or_lt (x y : number) :
  Num.isNaN x = false -> Num.isNaN y = false ->
  (Num.ge x y = true /\ Num.lt x y = false) \/
  (Num.ge x y = false /\ Num.lt x y = true).
Proof.
  intros Hx Hy. unfold Num.ge, Num.lt, SFltb.
  destruct (SFcompare x y) as [[ | | ]|] eqn:E; auto.
  apply SFcompare_None in E. destruct E; congruence.
Qed.

(** ** The requirement comparator *)

Lemma nullish_or_NaN_spec (v : maybe number) :
  nullish_or_NaN v = true <-> absent_or_NaN v.
Proof.
  unfold absent_or_NaN. destruct v as [ | |x]; simpl.
  - tauto.
  - tauto.
  - split.
    + destruct x; simpl; try discriminate. auto.
    + intros [H|[H|H]]; try discriminate. by inversion H.
Qed.

Lemma is_number_not_nullish (v : maybe number) :
  is_number v -> nullish_or_NaN v = false.
Proof. intros (x & -> & Hx). exact Hx. Qed.

(** C1.  [compareNumeric] gives [unknown] when the requirement is absent or
    NaN, whatever the user's value is; [unknown] when the requirement is a
    number and the user's value is absent or NaN; [good] when both are
    numbers and the user's is [>=] the requirement; [bad] when both are
    numbers and the user's is [<] it.  Two numbers always compare one way or
    the other, and the status is always one of the three. *)
Theorem compareNumeric_status (userVal reqVal : maybe number) :
  (absent_or_NaN reqVal ->
     compareNumeric userVal reqVal
     = {| status := "unknown"; text := "No numeric requirement" |}) /\
  (is_number reqVal -> absent_or_NaN userVal ->
     status (compareNumeric userVal reqVal) = "unknown") /\
  (forall u r, userVal = Val u -> reqVal = Val r ->
     Num.isNaN u = false -> Num.isNaN r = false ->
     (Num.ge u r = true -> status (compareNumeric userVal reqVal) = "good") /\
     (Num.lt u r = true -> status (compareNumeric userVal reqVal) = "bad") /\
     (Num.ge u r = true \/ Num.lt u r = true)) /\
  (status (compareNumeric userVal reqVal) = "unknown" \/
   status (compareNumeric userVal reqVal) = "good" \/
   status (compareNumeric userVal reqVal) = "bad").
Proof.
  unfold compareNumeric. split; [|split; [|split]].
  - intros H. apply nullish_or_NaN_spec in H. by rewrite H.
  - intros Hr Hu. rewrite (is_number_not_nullish _ Hr).
    apply nullish_or_NaN_spec in Hu. by rewrite Hu.
  - intros u r -> -> Hu Hr. simpl. rewrite Hu, Hr.
    destruct (ge_or_lt u r Hu Hr) as [[Hg Hl]|[Hg Hl]]; rewrite Hg, Hl.
    + split; [done|]. split; [done|]. by left.
    + split; [done|]. split; [done|]. by right.
  - destruct (nullish_or_NaN reqVal); [auto|].
    destruct (nullish_or_NaN userVal); [auto|].
    destruct (Num.ge _ _); auto.
Qed.

(** The comparisons the specification lists: 4 against 4 and 5 against 4
    meet the requirement, 3 against 4 does not, and a missing side is
    unknown. *)
Lemma compareNumeric_status_witness :
  status (compareNumeric (Val (Num.of_Z 4)) (Val (Num.of_Z 4))) = "good" /\
  status (compareNumeric (Val (Num.of_Z 5)) (Val (Num.of_Z 4))) = "good" /\
  status (compareNumeric (Val (Num.of_Z 3)) (Val (Num.of_Z 4))) = "bad" /\
  status (compareNumeric Null (Val (Num.of_Z 4))) = "unknown" /\
  status (compareNumeric (Val (Num.of_Z 4)) Null) = "unknown".
Proof.
  pose proof (compareNumeric_status (Val (Num.of_Z 4)) (Val (Num.of_Z 4))) as (_ & _ & H44 & _).
  pose proof (compareNumeric_status (Val (Num.of_Z 5)) (Val (Num.of_Z 4))) as (_ & _ & H54 & _).
  pose proof (compareNumeric_status (Val (Num.of_Z 3)) (Val (Num.of_Z 4))) as (_ & _ & H34 & _).
  pose proof (compareNumeric_status Null (Val (Num.of_Z 4))) as (_ & HN & _).
  pose proof (compareNumeric_status (Val (Num.of_Z 4)) Null) as (HR & _).
  split; [|split; [|split; [|split]]].
  - apply (H44 _ _ eq_refl eq_refl eq_refl eq_refl). reflexivity.
  - apply (H54 _ _ eq_refl eq_refl eq_refl eq_refl). reflexivity.
  - apply (H34 _ _ eq_refl eq_refl eq_refl eq_refl). reflexivity.
  - apply HN.
    + exists (Num.of_Z 4). split; reflexivity.
    + right; left; reflexivity.
  - rewrite HR; [reflexivity|]. right; left; reflexivity.
Defined.

(** ** The summary badge of a tier *)

Lemma tier_status_bad (req : Requirement.t) (userSpecs : option UserProfile.t) :
  tier_status req userSpecs = "bad" <-> some_comparison_bad req userSpecs.
Proof.
  unfold tier_status, some_comparison_bad.
  rewrite <- !String.eqb_eq.
  destruct (String.eqb (status (ramCmp req userSpecs)) "bad"),
           (String.eqb (status (vramCmp req userSpecs)) "bad"),
           (String.eqb (status (stoCmp req userSpecs)) "bad"); simpl;
    intuition congruence.
Qed.

Lemma tier_status_good (req : Requirement.t) (userSpecs : option UserProfile.t) :
  tier_status req userSpecs = "good" <-> ~ some_comparison_bad req userSpecs.
Proof.
  rewrite <- tier_status_bad. unfold tier_status.
  destruct (_ || _)%bool; split; congruence.
Qed.

(** C9.  For a requirement record that is present, the summary badge of the
    card is the [bad] badge exactly when at least one of the RAM, VRAM and
    storage comparisons is [bad]; otherwise it is the [good] badge, whatever
    the other statuses are. *)
Theorem tier_badge_bad_iff_some_bad (title : string) (req : Requirement.t)
    (userSpecs : option UserProfile.t) :
  (badge_of (renderReqCard title (Some req) userSpecs) = Some "badge bad"
   <-> some_comparison_bad req userSpecs) /\
  (badge_of (renderReqCard title (Some req) userSpecs) = Some "badge good"
   <-> ~ some_comparison_bad req userSpecs).
Proof.
  pose proof (tier_status_bad req userSpecs) as Hbad.
  pose proof (tier_status_good req userSpecs) as Hgood.
  change (badge_of (renderReqCard title (Some req) userSpecs))
    with (Some (badgeClass (tier_status req userSpecs))).
  destruct (String.eqb_spec (tier_status req userSpecs) "bad") as [E|E].
  - rewrite E in *. change (badgeClass "bad") with "badge bad".
    split; split; intros H;
      first [tauto | discriminate H | apply Hgood in H; discriminate H].
  - assert (E' : tier_status req userSpecs = "good").
    { unfold tier_status in *. destruct (_ || _)%bool; congruence. }
    rewrite E' in *. change (badgeClass "good") with "badge good".
    split; split; intros H;
      first [tauto | discriminate H | apply Hbad in H; discriminate H].
Qed.

(** ** Reading the profile form *)

Lemma toNum_Null (v : string) :
  toNum v = Null <-> Num.isFinite (NumParse.StringToNumber v) = false.
Proof.
  unfold toNum. destruct (Num.isFinite _); split; congruence.
Qed.

(** ** Shard addressing *)

Lemma Math_floor_quotient (a s : Z) : 0 < s -> Math_floor (quotient a s) = a / s.
Proof.
  intros Hs. destruct s as [ |p|p]; try lia.
  unfold Math_floor, quotient, Qfloor, Qdiv, Qmult, Qinv, inject_Z. simpl.
  by rewrite Z.mul_1_r.
Qed.

Lemma loadShard_index (shardId : Z) (w : World) :
  index (state (snd (loadShard shardId w))) = index (state w).
Proof.
  unfold loadShard, bind, get_state, fetch, json, cache_set, set_state, ret, throw.
  simpl. destruct (shardCache (state w) !! shardId); [done|].
  destruct (network w (requests w) (shard_url shardId)) as [ |res]; [done|].
  simpl. destruct (ok res); simpl; [|done].
  destruct (JSON.parse (body res)); done.
Qed.

(** [selectApp] changes the world as its [loadShard] does, and then at most
    [state.selected]. *)
Lemma selectApp_state (appid : Z) (w : World) :
  let w1 := snd (loadShard (shardForAppid (state w) appid) w) in
  index (state (snd (selectApp appid w))) = index (state w1) /\
  shardCache (state (snd (selectApp appid w))) = shardCache (state w1) /\
  requests (snd (selectApp appid w)) = requests w1.
Proof.
  intros w1. subst w1. unfold selectApp, bind, get_state, set_state, throw. simpl.
  destruct (loadShard (shardForAppid (state w) appid) w) as [[shard|e] w1]; [|done].
  destruct shard as [ | |b|x|s|l|ps]; simpl; try done.
  destruct (find_app appid l); done.
Qed.

Lemma step_index (w w' : World) : step w w' -> index (state w') = index (state w).
Proof.
  intros [s w0|a w0|els w0|els w0|w0]; [apply loadShard_index| |done..].
  destruct (selectApp_state a w0) as (-> & _). apply loadShard_index.
Qed.

Lemma steps_index (w w' : World) : rtc step w w' -> index (state w') = index (state w).
Proof.
  induction 1 as [ |w1 w2 w3 H12 _ IH]; [done|].
  rewrite IH. by apply step_index.
Qed.

(** C2.  With a positive shard size, the shard id of an appid is the floor of
    appid / shard_size: the one integer [k] with
    [k * shard_size <= appid < (k + 1) * shard_size].  It is a function of the
    index and the appid alone, so it is the same at every later point of the
    session. *)
Theorem shardForAppid_floor (st : State) (appid : Z) :
  0 < Index.shard_size (index st) ->
  let shard_size := Index.shard_size (index st) in
  let k := shardForAppid st appid in
  (k * shard_size <= appid < (k + 1) * shard_size) /\
  (forall k', k' * shard_size <= appid < (k' + 1) * shard_size -> k' = k) /\
  (forall w w', state w = st -> rtc step w w' -> shardForAppid (state w') appid = k).
Proof.
  intros Hs shard_size k.
  assert (Hk : k = appid / shard_size) by (apply Math_floor_quotient; exact Hs).
  pose proof (Z.div_mod appid shard_size ltac:(lia)) as Hdm.
  pose proof (Z.mod_pos_bound appid shard_size Hs) as Hm.
  split; [|split].
  - rewrite Hk. nia.
  - intros k' Hk'. rewrite Hk. apply (Z.div_unique appid shard_size k' (appid - shard_size * k')); lia.
  - intros w w' <- Hsteps. unfold k, shardForAppid. by rewrite (steps_index _ _ Hsteps).
Qed.

Lemma shardForAppid_floor_witness :
  0 < Index.shard_size (index Examples.fresh_state) /\
  shardForAppid Examples.fresh_state 1245 = 1.
Proof.
  assert (H : 0 < Index.shard_size (index Examples.fresh_state)) by (simpl; lia).
  split; [exact H|].
  destruct (shardForAppid_floor Examples.fresh_state 1245 H) as (_ & Hunique & _).
  symmetry. apply Hunique. simpl. lia.
Defined.

(** Selecting appid 1245, with no shard cached, sends one request, for the
    resource of shard 1, and selects the app found there. *)
Lemma selectApp_1245 :
  let w := Examples.world_answering Examples.shard_1_response in
  requests (snd (selectApp 1245 w)) = ["data/shards/shard_00001.json"] /\
  selected (state (snd (selectApp 1245 w)))
  = VObj [("appid", VNum (Num.of_Z 1245))].
Proof. split; by vm_compute. Qed.

Lemma tier_badge_bad_iff_some_bad_witness :
  badge_of (renderReqCard "Minimum" (Some Examples.needs_8_gb) None) = Some "badge good" /\
  badge_of (renderReqCard "Minimum" (Some Examples.needs_8_gb)
              (Some Examples.gaming_pc)) = Some "badge good".
Proof.
  split.
  - apply (tier_badge_bad_iff_some_bad "Minimum" Examples.needs_8_gb None).
    intros [H|[H|H]]; discriminate H.
  - apply (tier_badge_bad_iff_some_bad "Minimum" Examples.needs_8_gb
             (Some Examples.gaming_pc)).
    intros [H|[H|H]]; discriminate H.
Defined.

(** ** The profile store *)

(** C7.  Whatever [localStorage] holds under the profile key, [loadSpecs]
    returns and does not throw.  It returns [null] when the key is absent,
    when its content is the empty string, and when the content is not JSON;
    content that is JSON is returned parsed. *)
Theorem loadSpecs_never_throws (ls : gmap string string) :
  exists v, loadSpecs ls = Normal v /\
    (getItem SPECS_KEY ls = None -> v = VNull) /\
    (forall raw, getItem SPECS_KEY ls = Some raw ->
       (raw = EmptyString -> v = VNull) /\
       (forall e, JSON.parse raw = Throw e -> v = VNull) /\
       (forall parsed, raw <> EmptyString -> JSON.parse raw = Normal parsed -> v = parsed)).
Proof.
  unfold loadSpecs. destruct (getItem SPECS_KEY ls) as [raw| ] eqn:Hget.
  - destruct raw as [ |c raw'].
    + exists VNull. simpl. split; [done|]. split; [done|].
      intros raw [= <-]. split; [done|]. split; [done|]. by intros parsed H.
    + simpl. destruct (JSON.parse (String c raw')) as [parsed|e] eqn:Hparse.
      * exists parsed. simpl. split; [done|]. split; [done|].
        intros raw [= <-]. split; [done|]. split; [congruence|].
        intros parsed' _ H. congruence.
      * exists VNull. simpl. split; [done|]. split; [done|].
        intros raw [= <-]. split; [done|]. split; [done|].
        intros parsed' _ H. congruence.
  - exists VNull. simpl. split; [done|]. split; [done|]. intros raw H. discriminate H.
Qed.

Lemma loadSpecs_never_throws_witness :
  loadSpecs (setItem SPECS_KEY "{not json" ∅) = Normal VNull.
Proof.
  destruct (loadSpecs_never_throws (setItem SPECS_KEY "{not json" ∅))
    as (v & -> & _ & H).
  destruct (H "{not json") as (_ & Hthrow & _).
  - apply lookup_insert_eq.
  - f_equal. apply (Hthrow SyntaxError). reflexivity.
Defined.

(** ** The shard cache *)

Lemma loadShard_hit (shardId : Z) (w : World) (data : value) :
  shardCache (state w) !! shardId = Some data ->
  loadShard shardId w = (Normal data, w).
Proof.
  intros H. unfold loadShard, bind, get_state. simpl. by rewrite H.
Qed.

(** What a call that misses the cache comes to, by the answer of the
    network. *)
Lemma loadShard_miss (shardId : Z) (w : World) :
  shardCache (state w) !! shardId = None ->
  let w1 := {| state := state w; localStorage := localStorage w;
               requests := shard_url shardId :: requests w; network := network w |} in
  loadShard shardId w =
    match network w (requests w) (shard_url shardId) with
    | Rejected => (Throw (TypeError "Failed to fetch"), w1)
    | Responded res =>
        if ok res then
          match JSON.parse (body res) with
          | Normal data =>
              (Normal data,
               with_state {| index := index (state w); filtered := filtered (state w);
                             selected := selected (state w); specs := specs (state w);
                             shardCache := <[shardId := data]> (shardCache (state w)) |} w1)
          | Throw e => (Throw e, w1)
          end
        else (Throw (Error ("Failed to load shard " +:+ String_of shardId)), w1)
    end.
Proof.
  intros H w1. unfold loadShard, bind, get_state, fetch. simpl. rewrite H.
  destruct (network w (requests w) (shard_url shardId)) as [ |res]; [done|].
  destruct (ok res); simpl; [|done].
  unfold json. simpl. destruct (JSON.parse (body res)); done.
Qed.

Lemma loadShard_Normal (shardId : Z) (w w' : World) (data : value) :
  loadShard shardId w = (Normal data, w') ->
  shardCache (state w') !! shardId = Some data.
Proof.
  destruct (shardCache (state w) !! shardId) as [d| ] eqn:Hc.
  - rewrite (loadShard_hit _ _ _ Hc). intros [= <- <-]. exact Hc.
  - rewrite (loadShard_miss _ _ Hc).
    destruct (network w (requests w) (shard_url shardId)) as [ |res]; [done|].
    destruct (ok res); [|done].
    destruct (JSON.parse (body res)) as [d|e]; [|done].
    intros [= <- <-]. simpl. apply lookup_insert_eq.
Qed.

Lemma loadShard_Throw (shardId : Z) (w w' : World) (e : error) :
  loadShard shardId w = (Throw e, w') ->
  state w' = state w /\ shardCache (state w) !! shardId = None.
Proof.
  destruct (shardCache (state w) !! shardId) as [d| ] eqn:Hc.
  - rewrite (loadShard_hit _ _ _ Hc). discriminate.
  - rewrite (loadShard_miss _ _ Hc).
    destruct (network w (requests w) (shard_url shardId)) as [ |res].
    + by intros [= <- <-].
    + destruct (ok res).
      * destruct (JSON.parse (body res)) as [d|e']; [done|]. by intros [= <- <-].
      * by intros [= <- <-].
Qed.

(** An entry of the cache stays, with its data, through every call. *)
Lemma step_keeps_entry (w w' : World) (shardId : Z) (data : value) :
  step w w' ->
  shardCache (state w) !! shardId = Some data ->
  shardCache (state w') !! shardId = Some data.
Proof.
  assert (Hload : forall s w0,
    shardCache (state w0) !! shardId = Some data ->
    shardCache (state (snd (loadShard s w0))) !! shardId = Some data).
  { intros s w0 H. destruct (shardCache (state w0) !! s) as [d| ] eqn:Hc.
    - by rewrite (loadShard_hit _ _ _ Hc).
    - rewrite (loadShard_miss _ _ Hc).
      destruct (network w0 (requests w0) (shard_url s)) as [ |res]; [done|].
      destruct (ok res); [|done].
      destruct (JSON.parse (body res)) as [d|e]; [|done].
      simpl. rewrite lookup_insert_ne; [done|]. intros ->. congruence. }
  intros [s w0|a w0|els w0|els w0|w0] H; try exact H.
  - by apply Hload.
  - destruct (selectApp_state a w0) as (_ & -> & _). by apply Hload.
Qed.

Lemma steps_keep_entry (w w' : World) (shardId : Z) (data : value) :
  rtc step w w' ->
  shardCache (state w) !! shardId = Some data ->
  shardCache (state w') !! shardId = Some data.
Proof.
  induction 1 as [ |w1 w2 w3 H12 _ IH]; [done|].
  intros H. apply IH. by apply (step_keeps_entry w1 w2).
Qed.

(** C8.  When the shard is not cached and the response is not successful,
    [loadShard] throws the error that names the shard, after the one
    request; the session state, and so the cache, is as before, with no
    entry for the shard id.  Every call that throws leaves the state as it
    was. *)
Theorem loadShard_failure_leaves_cache (shardId : Z) (w : World) (res : Response) :
  shardCache (state w) !! shardId = None ->
  network w (requests w) (shard_url shardId) = Responded res ->
  ok res = false ->
  exists w',
    loadShard shardId w
      = (Throw (Error ("Failed to load shard " +:+ String_of shardId)), w') /\
    state w' = state w /\
    shardCache (state w') !! shardId = None /\
    requests w' = shard_url shardId :: requests w /\
    (forall s w0 e w0', loadShard s w0 = (Throw e, w0') -> state w0' = state w0).
Proof.
  intros Hc Hnet Hok. rewrite (loadShard_miss _ _ Hc), Hnet, Hok.
  eexists. split; [reflexivity|]. simpl. split; [done|]. split; [done|].
  split; [done|]. intros s w0 e w0' H. by apply loadShard_Throw in H as [? _].
Qed.

Lemma loadShard_failure_leaves_cache_witness :
  let w := Examples.world_answering Examples.not_found_response in
  fst (loadShard 1 w) = Throw (Error "Failed to load shard 1") /\
  shardCache (state (snd (loadShard 1 w))) !! 1 = None.
Proof.
  intros w.
  destruct (loadShard_failure_leaves_cache 1 w Examples.not_found_response)
    as (w' & -> & _ & Hc & _); [reflexivity..|].
  split; [reflexivity|exact Hc].
Defined.

(** ** Strings *)

Lemma append_assoc (a b c : string) : (a +:+ b) +:+ c = a +:+ (b +:+ c).
Proof. induction a as [ |x a IH]; simpl; [done|]. by rewrite IH. Qed.

Lemma startsWith_spec (s q : string) :
  Str.startsWith s q = true <-> exists after, s = q +:+ after.
Proof.
  revert s. induction q as [ |b q IH]; intros s; simpl.
  - destruct s; split; eauto.
  - destruct s as [ |a s]; simpl.
    + split; [done|]. intros [after H]. discriminate H.
    + destruct (Ascii.eqb_spec a b) as [->|Hne].
      * rewrite IH. split; intros [after H]; exists after.
        -- by rewrite H.
        -- by injection H.
      * split; [done|]. intros [after H]. injection H as H _. contradiction.
Qed.

Lemma includes_unfold (s q : string) :
  Str.includes s q
  = if Str.startsWith s q then true
    else match s with
         | EmptyString => false
         | String _ s' => Str.includes s' q
         end.
Proof. by destruct s. Qed.

Lemma includes_spec (s q : string) :
  Str.includes s q = true <-> exists before after, s = before +:+ q +:+ after.
Proof.
  induction s as [ |a s IH]; rewrite includes_unfold;
    destruct (Str.startsWith _ q) eqn:E.
  - apply startsWith_spec in E as [after H]. split; [|done].
    intros _. by exists EmptyString, after.
  - split; [done|]. intros (before & after & H).
    destruct before; simpl in H.
    + assert (Str.startsWith EmptyString q = true) by (apply startsWith_spec; eauto).
      congruence.
    + discriminate H.
  - apply startsWith_spec in E as [after H]. split; [|done].
    intros _. by exists EmptyString, after.
  - rewrite IH. split.
    + intros (before & after & H). exists (String a before), after. simpl. by rewrite H.
    + intros (before & after & H). destruct before as [ |b before]; simpl in H.
      * assert (Str.startsWith (String a s) q = true) by (apply startsWith_spec; eauto).
        congruence.
      * injection H as _ H. eauto.
Qed.

Lemma toLowerCase_truthy (s : string) :
  Str.truthy (Str.toLowerCase s) = Str.truthy s.
Proof. by destruct s. Qed.

Lemma or_else_string (s : string) : or_else (Val s) EmptyString = s.
Proof. by destruct s. Qed.

Lemma strict_eq_spec (v : maybe string) (t : string) :
  strict_eq v t = true <-> v = Val t.
Proof.
  destruct v as [ | |s]; simpl; [done..|].
  rewrite String.eqb_eq. split; congruence.
Qed.

(** ** Lists *)

Section Filter.
Context {A : Type} (f : A -> bool).

Lemma filter_all (l : list A) :
  Forall (fun a => f a = true) l -> List.filter f l = l.
Proof.
  induction 1 as [ |a l Ha _ IH]; simpl; [done|]. by rewrite Ha, IH.
Qed.

Lemma filter_filter (g : A -> bool) (l : list A) :
  List.filter g (List.filter f l) = List.filter (fun a => f a && g a) l.
Proof.
  induction l as [ |a l IH]; simpl; [done|].
  destruct (f a); simpl; [|done]. destruct (g a); by rewrite IH.
Qed.

Lemma filter_Forall (l : list A) :
  Forall (fun a => f a = true) (List.filter f l).
Proof.
  induction l as [ |a l IH]; simpl; [constructor|].
  destruct (f a) eqn:E; [by constructor|done].
Qed.

Lemma filter_sublist (l : list A) : sublist (List.filter f l) l.
Proof.
  induction l as [ |a l IH]; simpl; [constructor|].
  destruct (f a); by constructor.
Qed.

End Filter.

(** ** The catalog filter *)

(** The list that [applyFilters] stores, for any inputs. *)
Lemma applyFilters_filtered (els : Els) (st : State) :
  filtered (applyFilters els st)
  = take 200 (List.filter (passes els) (Index.apps (index st))).
Proof.
  unfold applyFilters, passes, FilterSpec.matches_queryb. cbv zeta. cbn [filtered]. f_equal.
  rewrite or_else_string, toLowerCase_truthy.
  set (apps := Index.apps (index st)).
  assert (Hid : forall (l : list AppSummary.t), l = List.filter (fun _ => true) l).
  { intros l. symmetry. apply filter_all. by apply Forall_forall. }
  destruct (String.eqb (filter_mode els) "game");
    destruct (String.eqb (filter_mode els) "dlc");
    destruct (String.eqb (filter_mode els) "hasreqs");
    destruct (Str.trim (search els)) as [ |c t]; cbn [Str.truthy].
  all: rewrite ?filter_filter.
  all: first [ apply List.filter_ext | rewrite (Hid apps) at 1; apply List.filter_ext ].
  all: intros a; cbn [andb]; rewrite ?andb_true_r, ?andb_assoc; reflexivity.
Qed.

Lemma in_categoryb_spec (m : FilterSpec.Mode) (a : AppSummary.t) :
  FilterSpec.in_categoryb m a = true <-> FilterSpec.in_category m a.
Proof. destruct m; simpl; [done|apply strict_eq_spec..|done]. Qed.

Lemma matches_queryb_spec (query : string) (a : AppSummary.t) :
  FilterSpec.matches_queryb query a = true <-> FilterSpec.matches_query query a.
Proof.
  unfold FilterSpec.matches_queryb, FilterSpec.matches_query,
    FilterSpec.contains_ignoring_case.
  destruct (Str.trim query) as [ |c t] eqn:E.
  - split; auto.
  - rewrite includes_spec. split; [auto|]. by intros [?|?].
Qed.

Lemma passes_mode (els : Els) (m : FilterSpec.Mode) (a : AppSummary.t) :
  filter_mode els = FilterSpec.mode_value m ->
  passes els a
  = FilterSpec.in_categoryb m a && FilterSpec.matches_queryb (search els) a.
Proof.
  intros H. unfold passes. rewrite H.
  destruct m; simpl; rewrite ?andb_true_r; reflexivity.
Qed.

(** C4.  With the category selector on one of the four modes, the list that
    [applyFilters] stores is the index (a) filtered by the category of the
    mode, (b) then filtered by the name containing the trimmed query, letter
    case apart, an empty trimmed query keeping every entry, (c) then cut to
    its first 200 entries, in the order of the index. *)
Theorem applyFilters_result (els : Els) (st : State) (m : FilterSpec.Mode) :
  filter_mode els = FilterSpec.mode_value m ->
  filtered (applyFilters els st)
  = FilterSpec.result m (search els) (Index.apps (index st)) /\
  (forall a, FilterSpec.in_categoryb m a = true <-> FilterSpec.in_category m a) /\
  (forall a, FilterSpec.matches_queryb (search els) a = true
             <-> FilterSpec.matches_query (search els) a).
Proof.
  intros Hm. split; [|split].
  - unfold FilterSpec.result. rewrite applyFilters_filtered, filter_filter. f_equal.
    apply List.filter_ext. intros a. by apply passes_mode.
  - apply in_categoryb_spec.
  - apply matches_queryb_spec.
Qed.

Lemma applyFilters_result_witness :
  filtered (applyFilters Examples.strike_dlc_query Examples.fresh_state)
  = [ {| AppSummary.appid := 1245; AppSummary.name := Val "Strike Pack";
         AppSummary.type := Val "dlc"; AppSummary.has_requirements := false |} ].
Proof.
  destruct (applyFilters_result Examples.strike_dlc_query Examples.fresh_state
              FilterSpec.dlc eq_refl) as [-> _].
  reflexivity.
Defined.

(** C5.  Filtering again with the same query and mode stores the same list,
    and filtering the stored list itself gives it back; the list has at most
    200 entries; it is a sublist of the index: its entries are entries of
    the index, in the order of the index. *)
Theorem applyFilters_idempotent_bounded_sublist (els : Els) (st : State) :
  applyFilters els (applyFilters els st) = applyFilters els st /\
  filtered (applyFilters els (with_apps (filtered (applyFilters els st)) st))
  = filtered (applyFilters els st) /\
  (length (filtered (applyFilters els st)) <= 200)%nat /\
  sublist (filtered (applyFilters els st)) (Index.apps (index st)) /\
  (forall a, a ∈ filtered (applyFilters els st) -> a ∈ Index.apps (index st)).
Proof.
  assert (Hsub : sublist (filtered (applyFilters els st)) (Index.apps (index st))).
  { rewrite applyFilters_filtered.
    transitivity (List.filter (passes els) (Index.apps (index st))).
    - apply sublist_take.
    - apply filter_sublist. }
  split; [reflexivity|]. split; [|split; [|split]].
  - rewrite !applyFilters_filtered. simpl.
    rewrite filter_all.
    + by rewrite take_take.
    + apply Forall_take. apply filter_Forall.
  - rewrite applyFilters_filtered, length_take. lia.
  - exact Hsub.
  - intros a Ha. by apply (elem_of_sublist _ _ _ Ha Hsub).
Qed.

(** ** JSON texts read back *)

Lemma string_body_quote_char (c : ascii) (text t rest : string) :
  JSON.string_body text = Some (t, rest) ->
  JSON.string_body (JSON.quote_char c +:+ text) = Some (String c t, rest).
Proof.
  intros H.
  destruct c as [[] [] [] [] [] [] [] []]; simpl; rewrite H; reflexivity.
Qed.

Lemma string_body_quote_chars (s rest : string) :
  JSON.string_body (JSON.quote_chars s +:+ String JSON.quote_mark rest)
  = Some (s, rest).
Proof.
  induction s as [ |c s IH]; [reflexivity|].
  simpl. rewrite append_assoc. by apply string_body_quote_char.
Qed.

Lemma digits_app (s rest : string) (acc : N) (cnt : nat) :
  after_member rest ->
  forall v c r, NumParse.digits s acc cnt = (v, c, r) ->
  NumParse.digits (s +:+ rest) acc cnt = (v, c, r +:+ rest).
Proof.
  intros Hrest. revert acc cnt.
  induction s as [ |a s IH]; intros acc cnt v c r; simpl.
  - intros [= <- <- <-]. destruct rest as [ |c0 r0]; [done|].
    by destruct Hrest as [-> | ->].
  - destruct (NumParse.digit a); [apply IH|]. by intros [= <- <- <-].
Qed.

Lemma minus_sign_app (s rest : string) (neg : bool) (r : string) :
  after_member rest ->
  JSON.minus_sign s = (neg, r) ->
  JSON.minus_sign (s +:+ rest) = (neg, r +:+ rest).
Proof.
  intros Hrest. destruct s as [ |a s]; simpl.
  - intros [= <- <-]. destruct rest as [ |c0 r0]; [done|].
    by destruct Hrest as [-> | ->].
  - destruct (Ascii.eqb a "-"); by intros [= <- <-].
Qed.

Lemma sign_app (s rest : string) (neg : bool) (r : string) :
  after_member rest ->
  NumParse.sign s = (neg, r) ->
  NumParse.sign (s +:+ rest) = (neg, r +:+ rest).
Proof.
  intros Hrest. destruct s as [ |a s]; simpl.
  - intros [= <- <-]. destruct rest as [ |c0 r0]; [done|].
    by destruct Hrest as [-> | ->].
  - destruct (Ascii.eqb a "-"); [by intros [= <- <-]|].
    destruct (Ascii.eqb a "+"); by intros [= <- <-].
Qed.

Lemma int_part_app (s rest : string) (v : N) (r : string) :
  after_member rest ->
  JSON.int_part s = Some (v, r) ->
  JSON.int_part (s +:+ rest) = Some (v, r +:+ rest).
Proof.
  intros Hrest. destruct s as [ |a s]; [done|].
  unfold JSON.int_part. change (String a s +:+ rest) with (String a (s +:+ rest)).
  cbv beta iota. destruct (Ascii.eqb a "0"); [by intros [= <- <-]|].
  change (String a (s +:+ rest)) with (String a s +:+ rest).
  destruct (NumParse.digits (String a s) 0%N O) as [[v' c'] r'] eqn:E.
  rewrite (digits_app _ _ _ _ Hrest _ _ _ E).
  destruct c'; [done|]. by intros [= <- <-].
Qed.

Lemma frac_part_app (ip : N) (s rest : string) (m : N) (fc : nat) (r : string) :
  after_member rest ->
  JSON.frac_part ip s = Some (m, fc, r) ->
  JSON.frac_part ip (s +:+ rest) = Some (m, fc, r +:+ rest).
Proof.
  intros Hrest. destruct s as [ |a s].
  - simpl. intros [= <- <- <-]. destruct rest as [ |c0 r0]; [done|].
    by destruct Hrest as [-> | ->].
  - unfold JSON.frac_part. change (String a s +:+ rest) with (String a (s +:+ rest)).
    cbv beta iota. destruct (Ascii.eqb a "."); [|by intros [= <- <- <-]].
    destruct (NumParse.digits s ip O) as [[v' c'] r'] eqn:E.
    rewrite (digits_app _ _ _ _ Hrest _ _ _ E).
    destruct c'; [done|]. by intros [= <- <- <-].
Qed.

Lemma exp_part_app (s rest : string) (e : Z) (r : string) :
  after_member rest ->
  JSON.exp_part s = Some (e, r) ->
  JSON.exp_part (s +:+ rest) = Some (e, r +:+ rest).
Proof.
  intros Hrest. destruct s as [ |a s].
  - simpl. intros [= <- <-]. destruct rest as [ |c0 r0]; [done|].
    by destruct Hrest as [-> | ->].
  - unfold JSON.exp_part. change (String a s +:+ rest) with (String a (s +:+ rest)).
    cbv beta iota. destruct (Ascii.eqb a "e" || Ascii.eqb a "E")%bool; [|by intros [= <- <-]].
    destruct (NumParse.sign s) as [neg r0] eqn:Es.
    rewrite (sign_app _ _ _ _ Hrest Es).
    destruct (NumParse.digits r0 0%N O) as [[v' c'] r'] eqn:E.
    rewrite (digits_app _ _ _ _ Hrest _ _ _ E).
    destruct c'; [done|]. by intros [= <- <-].
Qed.

Lemma number_token_app (s rest : string) (x : number) (r : string) :
  after_member rest ->
  JSON.number_token s = Some (x, r) ->
  JSON.number_token (s +:+ rest) = Some (x, r +:+ rest).
Proof.
  intros Hrest. unfold JSON.number_token.
  destruct (JSON.minus_sign s) as [neg s1] eqn:E0.
  rewrite (minus_sign_app _ _ _ _ Hrest E0).
  destruct (JSON.int_part s1) as [[ip r1]| ] eqn:E1; [|done].
  rewrite (int_part_app _ _ _ _ Hrest E1).
  destruct (JSON.frac_part ip r1) as [[[m fc] r2]| ] eqn:E2; [|done].
  rewrite (frac_part_app _ _ _ _ _ _ Hrest E2).
  destruct (JSON.exp_part r2) as [[e r3]| ] eqn:E3; [|done].
  rewrite (exp_part_app _ _ _ _ Hrest E3).
  by intros [= <- <-].
Qed.

(** A number starts with a minus sign or a digit, and so is no other kind
    of JSON value. *)
Lemma number_token_start (c : ascii) (s : string) (x : number) (r : string) :
  JSON.number_token (String c s) = Some (x, r) -> number_start c = true.
Proof.
  unfold number_start, JSON.number_token, JSON.minus_sign.
  destruct (Ascii.eqb c "-"); [done|]. simpl.
  destruct (Ascii.eqb_spec c "0") as [->|Hne]; [done|].
  destruct (NumParse.digit c); [done|]. discriminate.
Qed.

Lemma parse_value_number_start (fuel : nat) (c : ascii) (t : string) :
  number_start c = true ->
  JSON.parse_value (S fuel) (String c t)
  = match JSON.number_token (String c t) with
    | Some (x, rest) => Some (VNum x, rest)
    | None => None
    end.
Proof.
  intros H.
  destruct c as [[] [] [] [] [] [] [] []];
    try (vm_compute in H; discriminate H); reflexivity.
Qed.

Lemma parse_value_number (fuel : nat) (s rest : string) (x : number) (r : string) :
  JSON.number_token s = Some (x, r) ->
  after_member rest ->
  JSON.parse_value (S fuel) (s +:+ rest) = Some (VNum x, r +:+ rest).
Proof.
  intros H Hrest. pose proof (number_token_app _ _ _ _ Hrest H) as H'.
  destruct s as [ |c s]; [done|].
  change (String c s +:+ rest) with (String c (s +:+ rest)) in *.
  rewrite (parse_value_number_start _ _ _ (number_token_start _ _ _ _ H)).
  by rewrite H'.
Qed.

Lemma Num_eqb_eq (x y : number) : Num.eqb x y = true -> x = y.
Proof.
  destruct x as [a|a| |a m e], y as [b|b| |b m' e']; simpl; try discriminate.
  - destruct a, b; simpl; congruence.
  - destruct a, b; simpl; congruence.
  - done.
  - intros H. apply andb_prop in H as [H He]. apply andb_prop in H as [Ha Hm].
    apply Pos.eqb_eq in Hm as ->. apply Z.eqb_eq in He as ->.
    destruct a, b; simpl in Ha; congruence.
Qed.

Lemma reads_back_spec (x : number) :
  reads_back x = true ->
  Num.isFinite x = true /\
  JSON.number_token (NumText.toString x) = Some (x, EmptyString).
Proof.
  unfold reads_back. intros H. apply andb_prop in H as [Hf H]. split; [done|].
  destruct (JSON.number_token (NumText.toString x)) as [[y [ |c r]]| ]; try discriminate.
  by apply Num_eqb_eq in H as ->.
Qed.

(** A value that is stored as it is has a text, and the text is read back as
    the value wherever a member of an object may stand. *)
Lemma parse_value_serialize (v : value) :
  stored_as_is v ->
  exists t, JSON.serialize v = Some t /\
    forall fuel rest, after_member rest ->
      JSON.parse_value (S fuel) (t +:+ rest) = Some (v, rest).
Proof.
  destruct v as [ | |b|x|s|l|ps]; cbn [stored_as_is JSON.serialize];
    try done; intros H.
  - exists "null". split; [done|]. intros fuel rest _. reflexivity.
  - apply reads_back_spec in H as [Hf Ht]. rewrite Hf.
    exists (NumText.toString x). split; [done|]. intros fuel rest Hrest.
    by rewrite (parse_value_number fuel _ _ _ _ Ht Hrest).
  - exists (JSON.quote s). split; [done|]. intros fuel rest _.
    unfold JSON.quote. simpl. rewrite append_assoc. simpl.
    by rewrite string_body_quote_chars.
Qed.

Lemma parse_members_unfold (fuel : nat) (k text : string) (acc : list (string * value)) :
  JSON.parse_members (S fuel) (JSON.quote k +:+ String ":" text) acc
  = match JSON.parse_value fuel text with
    | None => None
    | Some (v, r3) =>
        match JSON.skip_ws r3 with
        | String "," r4 => JSON.parse_members fuel r4 (JSON.set_property k v acc)
        | String "}" rest => Some (JSON.set_property k v acc, rest)
        | _ => None
        end
    end.
Proof.
  unfold JSON.quote. simpl. rewrite append_assoc. simpl.
  by rewrite string_body_quote_chars.
Qed.

Lemma parse_members_serialize (ps : list (string * value)) :
  Forall (fun kv => stored_as_is (snd kv)) ps -> ps <> [] ->
  forall fuel acc rest, (length ps < fuel)%nat ->
    JSON.parse_members fuel
      (JSON.join "," (JSON.members JSON.serialize ps) +:+ String "}" rest) acc
    = Some (add_properties ps acc, rest).
Proof.
  induction 1 as [ |[k v] ps Hv Hps IH]; [done|]. intros _ fuel acc rest Hfuel.
  destruct fuel as [ |fuel]; [simpl in Hfuel; lia|].
  assert (Hfuel' : (length ps < fuel)%nat) by (simpl in Hfuel; lia).
  destruct (parse_value_serialize v Hv) as (t & Ht & Hparse).
  cbn [JSON.members]. cbn [snd] in Ht. rewrite Ht.
  destruct ps as [ |kv ps].
  - cbn [JSON.members JSON.join]. rewrite !append_assoc.
    change (":" +:+ t +:+ String "}" rest) with (String ":" (t +:+ String "}" rest)).
    rewrite parse_members_unfold.
    destruct fuel as [ |fuel]; [lia|]. rewrite Hparse; [|by right]. reflexivity.
  - assert (Hne : kv :: ps <> []) by done.
    specialize (IH Hne fuel (JSON.set_property k v acc) rest Hfuel').
    destruct (JSON.members JSON.serialize (kv :: ps)) as [ |m ms] eqn:Em.
    { exfalso. destruct kv as [k' v']. inversion Hps as [ |? ? Hv' _]; subst.
      destruct (parse_value_serialize v' Hv') as (t' & Ht' & _).
      cbn [JSON.members snd] in Em, Ht'. rewrite Ht' in Em. discriminate Em. }
    cbn [JSON.join]. rewrite !append_assoc.
    change (":" +:+ ?x) with (String ":" x).
    rewrite parse_members_unfold.
    destruct fuel as [ |fuel]; [lia|].
    change ("," +:+ ?x) with (String "," x).
    rewrite Hparse; [|by left]. cbn [JSON.skip_ws JSON.is_ws].
    exact IH.
Qed.

Lemma set_property_fresh (k : string) (v : value) (acc : list (string * value)) :
  k ∉ acc.*1 -> JSON.set_property k v acc = acc ++ [(k, v)].
Proof.
  induction acc as [ |[k' v'] acc IH]; simpl; [done|].
  intros Hk. apply not_elem_of_cons in Hk as [Hne Hk].
  destruct (String.eqb_spec k k') as [->|_]; [done|]. by rewrite IH.
Qed.

Lemma add_properties_fresh (ps acc : list (string * value)) :
  NoDup ((acc ++ ps).*1) -> add_properties ps acc = acc ++ ps.
Proof.
  revert acc. induction ps as [ |[k v] ps IH]; intros acc Hnd; simpl.
  - by rewrite app_nil_r.
  - unfold add_properties in *. simpl.
    rewrite set_property_fresh.
    + rewrite IH; rewrite <- app_assoc; [done|]. exact Hnd.
    + rewrite fmap_app in Hnd. apply NoDup_app in Hnd as (_ & Hdisj & _).
      intros Hin. apply (Hdisj k Hin). simpl. left.
Qed.

Lemma length_append (a b : string) :
  String.length (a +:+ b) = (String.length a + String.length b)%nat.
Proof. induction a as [ |c a IH]; simpl; [done|]. by rewrite IH. Qed.

Lemma parse_value_object (fuel : nat) (r : string) :
  JSON.parse_value (S fuel) (String "{" (String JSON.quote_mark r))
  = match JSON.parse_members fuel (String JSON.quote_mark r) [] with
    | Some (ps, rest) => Some (VObj ps, rest)
    | None => None
    end.
Proof. reflexivity. Qed.

(** An object whose property values are stored as they are, under keys that
    differ, is read back from its text. *)
Lemma parse_stringify_object (ps : list (string * value)) :
  Forall (fun kv => stored_as_is (snd kv)) ps ->
  NoDup (ps.*1) ->
  exists text, JSON.stringify (VObj ps) = Some text /\
    Str.truthy text = true /\
    JSON.parse text = Normal (VObj ps).
Proof.
  intros Hps Hnd.
  set (J := JSON.join "," (JSON.members JSON.serialize ps)).
  exists ("{" +:+ J +:+ "}"). split; [reflexivity|]. split; [reflexivity|].
  unfold JSON.parse.
  destruct ps as [ |kv ps].
  - reflexivity.
  - assert (Hlen : (length (kv :: ps) <= String.length J)%nat).
    { subst J. clear Hnd. induction Hps as [ |[k v] l Hv Hl IH]; [simpl; lia|].
      destruct (parse_value_serialize v Hv) as (t & Ht & _).
      cbn [JSON.members snd] in *. rewrite Ht.
      destruct (JSON.members JSON.serialize l) as [ |m ms] eqn:Em.
      - destruct l as [ |[k' v'] l]; [|exfalso].
        + cbn [JSON.join]. unfold JSON.quote. simpl. lia.
        + inversion Hl as [ |? ? Hv' _]; subst.
          destruct (parse_value_serialize v' Hv') as (t' & Ht' & _).
          cbn [JSON.members snd] in Em. rewrite Ht' in Em. discriminate Em.
      - cbn [JSON.join]. rewrite !length_append. simpl in IH |- *. lia. }
    change ("{" +:+ J +:+ "}") with (String "{" (J +:+ "}")).
    cbn [String.length]. rewrite length_append.
    replace (2 * S (String.length J + String.length "}") + 4)%nat
      with (S (S (2 * String.length J + 6)))%nat by (simpl; lia).
    assert (Hstart : exists r, J = String JSON.quote_mark r).
    { subst J. destruct kv as [k v]. inversion Hps as [ |? ? Hv _]; subst.
      destruct (parse_value_serialize v Hv) as (t & Ht & _).
      cbn [JSON.members snd] in *. rewrite Ht.
      destruct (JSON.members JSON.serialize ps); cbn [JSON.join];
        unfold JSON.quote; simpl; eauto. }
    pose proof (parse_members_serialize (kv :: ps) Hps ltac:(done)
                  (S (2 * String.length J + 6)) [] EmptyString ltac:(lia)) as Hm.
    fold J in Hm. rewrite add_properties_fresh in Hm by exact Hnd.
    clearbody J. destruct Hstart as [r ->].
    change (String JSON.quote_mark r +:+ "}") with (String JSON.quote_mark (r +:+ "}")) in *.
    rewrite parse_value_object, Hm. reflexivity.
Qed.

(** ** Saving and loading the profile *)

Lemma text_property_keys (k : string) (v : maybe string) :
  (UserProfile.text_property k v).*1 `sublist_of` [k].
Proof. destruct v; simpl; [by constructor|done..]. Qed.

Lemma number_property_keys (k : string) (v : maybe number) :
  (UserProfile.number_property k v).*1 `sublist_of` [k].
Proof. destruct v; simpl; [by constructor|done..]. Qed.

Lemma profile_keys_NoDup (p : UserProfile.t) : NoDup ((UserProfile.properties p).*1).
Proof.
  apply (sublist_NoDup _ ["cpu"; "gpu"; "ram_gb"; "vram_gb"; "storage_gb"]).
  - repeat (apply NoDup_cons_2;
            [rewrite ?elem_of_cons, elem_of_nil; intros H;
             repeat (destruct H as [H|H]; [discriminate H|]); exact H|]).
    apply NoDup_nil_2.
  - unfold UserProfile.properties. rewrite !fmap_app.
    apply (sublist_app _ ["cpu"]); [apply text_property_keys|].
    apply (sublist_app _ ["gpu"]); [apply text_property_keys|].
    apply (sublist_app _ ["ram_gb"]); [apply number_property_keys|].
    apply (sublist_app _ ["vram_gb"]); apply number_property_keys.
Qed.

Lemma profile_properties_stored (p : UserProfile.t) :
  storable p -> Forall (fun kv => stored_as_is (snd kv)) (UserProfile.properties p).
Proof.
  intros (Hram & Hvram & Hsto). unfold UserProfile.properties.
  repeat apply Forall_app_2.
  - destruct (UserProfile.cpu p); simpl; repeat constructor.
  - destruct (UserProfile.gpu p); simpl; repeat constructor.
  - destruct (UserProfile.ram_gb p); simpl; repeat constructor. exact Hram.
  - destruct (UserProfile.vram_gb p); simpl; repeat constructor. exact Hvram.
  - destruct (UserProfile.storage_gb p); simpl; repeat constructor. exact Hsto.
Qed.

Lemma loadSpecs_clearSpecs (ls : gmap string string) :
  loadSpecs (clearSpecs ls) = Normal VNull.
Proof.
  unfold loadSpecs, clearSpecs, getItem, removeItem. by rewrite lookup_delete_eq.
Qed.

(** Whole numbers of gigabytes up to 4096 read back from their text. *)
Lemma whole_numbers_read_back (z : Z) :
  0 <= z <= 4096 -> reads_back (Num.of_Z z) = true.
Proof.
  intros Hz.
  assert (H : forallb (fun z => reads_back (Num.of_Z z)) (seqZ 0 4097) = true)
    by (vm_compute; reflexivity).
  rewrite forallb_forall in H. apply H. apply list_elem_of_In, elem_of_seqZ. lia.
Qed.

(** * Further properties of the code *)

(** ** Trimming *)

Lemma trimEnd_unfold (c : ascii) (s : string) :
  Str.trimEnd (String c s)
  = match Str.trimEnd s with
    | EmptyString => if Str.is_white_space c then EmptyString else String c EmptyString
    | t => String c t
    end.
Proof. reflexivity. Qed.

Lemma trimStart_first (s : string) (c : ascii) :
  first_char (Str.trimStart s) = Some c -> Str.is_white_space c = false.
Proof.
  induction s as [ |a s IH]; simpl; [done|].
  destruct (Str.is_white_space a) eqn:E; [exact IH|].
  simpl. by intros [= <-].
Qed.

Lemma trimEnd_first (s : string) (c : ascii) :
  first_char s = Some c -> Str.is_white_space c = false ->
  first_char (Str.trimEnd s) = Some c.
Proof.
  destruct s as [ |a s]; [done|]. intros [= ->] Hc.
  rewrite trimEnd_unfold. destruct (Str.trimEnd s); [by rewrite Hc|done].
Qed.

Lemma trimEnd_last (s : string) (c : ascii) :
  last_char (Str.trimEnd s) = Some c -> Str.is_white_space c = false.
Proof.
  induction s as [ |a s IH]; [done|]. rewrite trimEnd_unfold.
  destruct (Str.trimEnd s) as [ |b t] eqn:E.
  - destruct (Str.is_white_space a) eqn:Ea; [done|]. simpl. by intros [= <-].
  - intros H. apply IH. exact H.
Qed.

Lemma trimEnd_idempotent (s : string) : Str.trimEnd (Str.trimEnd s) = Str.trimEnd s.
Proof.
  induction s as [ |a s IH]; [done|]. rewrite trimEnd_unfold.
  destruct (Str.trimEnd s) as [ |b t] eqn:E.
  - destruct (Str.is_white_space a) eqn:Ea; [done|].
    rewrite trimEnd_unfold. simpl. by rewrite Ea.
  - rewrite trimEnd_unfold, IH. reflexivity.
Qed.

Lemma trimStart_fixed (s : string) :
  (forall c, first_char s = Some c -> Str.is_white_space c = false) ->
  Str.trimStart s = s.
Proof.
  destruct s as [ |a s]; [done|]. intros H. simpl. by rewrite (H a eq_refl).
Qed.

Lemma trim_first (s : string) (c : ascii) :
  first_char (Str.trim s) = Some c -> Str.is_white_space c = false.
Proof.
  unfold Str.trim. destruct (Str.trimStart s) as [ |a t] eqn:E; [done|].
  assert (Ha : Str.is_white_space a = false).
  { apply (trimStart_first s). by rewrite E. }
  rewrite (trimEnd_first (String a t) a eq_refl Ha). by intros [= <-].
Qed.

Lemma trim_no_outer_space (s : string) : no_outer_space (Str.trim s).
Proof. split; [apply trim_first|apply trimEnd_last]. Qed.

Lemma trim_idempotent (s : string) : Str.trim (Str.trim s) = Str.trim s.
Proof.
  unfold Str.trim at 1. rewrite (trimStart_fixed _ (trim_first s)).
  apply trimEnd_idempotent.
Qed.

Lemma trimEnd_empty (s : string) :
  Str.trimEnd s = EmptyString <-> all_white_space s = true.
Proof.
  induction s as [ |a s IH]; [done|]. rewrite trimEnd_unfold. simpl.
  destruct (Str.trimEnd s) as [ |b t].
  - destruct (Str.is_white_space a); simpl; [|done].
    split; intros _; [by apply IH|done].
  - destruct (Str.is_white_space a); simpl; split; try done.
    intros H. by apply IH in H.
Qed.

Lemma trim_empty (s : string) :
  Str.trim s = EmptyString <-> all_white_space s = true.
Proof.
  unfold Str.trim. rewrite trimEnd_empty.
  induction s as [ |a s IH]; [done|]. simpl.
  destruct (Str.is_white_space a) eqn:E; simpl; [exact IH|].
  rewrite E. simpl. done.
Qed.

(** ** What the form reader yields *)

Lemma trimmed_or_null_field (v : string) : trimmed_field (trimmed_or_null v).
Proof.
  unfold trimmed_or_null, trimmed_field.
  pose proof (trim_no_outer_space v) as H.
  destruct (Str.trim v) as [ |c t]; [by left|].
  right. by exists (String c t).
Qed.

Lemma toNum_field (v : string) : finite_field (toNum v).
Proof.
  unfold toNum, finite_field.
  destruct (Num.isFinite (NumParse.StringToNumber v)) eqn:E; [|by left].
  right. eauto.
Qed.

(** X1.  The CPU and GPU of a profile read from the form are each [null] or
    a text that is not empty and has no white space at either end; they are
    [null] exactly when the input holds nothing but white space. *)
Theorem readSpecsFromForm_text_fields (els : Els) :
  trimmed_field (UserProfile.cpu (readSpecsFromForm els)) /\
  trimmed_field (UserProfile.gpu (readSpecsFromForm els)) /\
  (UserProfile.cpu (readSpecsFromForm els) = Null
   <-> all_white_space (specCpu els) = true) /\
  (UserProfile.gpu (readSpecsFromForm els) = Null
   <-> all_white_space (specGpu els) = true).
Proof.
  assert (H : forall v, trimmed_or_null v = Null <-> all_white_space v = true).
  { intros v. rewrite <- trim_empty. unfold trimmed_or_null.
    destruct (Str.trim v); split; done. }
  split; [apply trimmed_or_null_field|]. split; [apply trimmed_or_null_field|].
  split; apply H.
Qed.

(** X2.  The RAM, VRAM and storage of a profile read from the form are each
    [null] or a finite number: never absent, never NaN, never an infinity.
    So the saved object always has its five properties, in the order cpu,
    gpu, ram_gb, vram_gb, storage_gb. *)
Theorem readSpecsFromForm_numeric_fields (els : Els) :
  finite_field (UserProfile.ram_gb (readSpecsFromForm els)) /\
  finite_field (UserProfile.vram_gb (readSpecsFromForm els)) /\
  finite_field (UserProfile.storage_gb (readSpecsFromForm els)) /\
  (UserProfile.properties (readSpecsFromForm els)).*1
  = ["cpu"; "gpu"; "ram_gb"; "vram_gb"; "storage_gb"].
Proof.
  split; [apply toNum_field|]. split; [apply toNum_field|].
  split; [apply toNum_field|].
  unfold UserProfile.properties, readSpecsFromForm, trimmed_or_null, toNum. simpl.
  destruct (Str.trim (specCpu els)), (Str.trim (specGpu els)),
    (Num.isFinite (NumParse.StringToNumber (specRam els))),
    (Num.isFinite (NumParse.StringToNumber (specVram els))),
    (Num.isFinite (NumParse.StringToNumber (specStorage els))); reflexivity.
Qed.

Lemma StringToNumber_trim (v : string) :
  NumParse.StringToNumber (Str.trim v) = NumParse.StringToNumber v.
Proof. unfold NumParse.StringToNumber. by rewrite trim_idempotent. Qed.

(** X3.  White space is handled differently by kind of field: a numeric
    input that holds only white space is read as the number 0, a text input
    that holds only white space is read as [null]; and white space around a
    number does not change what is read. *)
Theorem readSpecsFromForm_white_space (v : string) :
  (all_white_space v = true ->
     toNum v = Val Num.zero /\ trimmed_or_null v = Null) /\
  toNum (Str.trim v) = toNum v /\
  trimmed_or_null (Str.trim v) = trimmed_or_null v.
Proof.
  split; [|split].
  - intros H. apply trim_empty in H. unfold toNum, trimmed_or_null, NumParse.StringToNumber.
    by rewrite H.
  - unfold toNum. by rewrite StringToNumber_trim.
  - unfold trimmed_or_null. by rewrite trim_idempotent.
Qed.

Lemma readSpecsFromForm_white_space_witness :
  toNum "   " = Val Num.zero /\ trimmed_or_null "   " = Null.
Proof.
  destruct (readSpecsFromForm_white_space "   ") as [H _].
  apply H. reflexivity.
Defined.

(** ** Order of the comparator *)

Ltac compare_cases :=
  repeat match goal with
         | H : context [Pos.compare_cont Eq ?p ?q] |- _ =>
             change (Pos.compare_cont Eq p q) with (Pos.compare p q) in H
         | |- context [Pos.compare_cont Eq ?p ?q] =>
             change (Pos.compare_cont Eq p q) with (Pos.compare p q)
         end;
  repeat match goal with
         | H : context [Z.compare ?a ?b] |- _ =>
             destruct (Z.compare_spec a b); simpl in H; try discriminate H
         | |- context [Z.compare ?a ?b] =>
             destruct (Z.compare_spec a b); simpl
         | H : context [Pos.compare ?a ?b] |- _ =>
             destruct (Pos.compare_spec a b); simpl in H; try discriminate H
         | |- context [Pos.compare ?a ?b] =>
             destruct (Pos.compare_spec a b); simpl
         end;
  try reflexivity; try lia.

Lemma ge_refl (x : number) : Num.isNaN x = false -> Num.ge x x = true.
Proof.
  unfold Num.ge. destruct x as [s|s| |s m e]; simpl; try done.
  - by destruct s.
  - intros _. destruct s; compare_cases.
Qed.

Lemma ge_trans (x y z : number) :
  Num.ge x y = true -> Num.ge y z = true -> Num.ge x z = true.
Proof.
  unfold Num.ge.
  destruct x as [sx|sx| |sx mx ex], y as [sy|sy| |sy my ey], z as [sz|sz| |sz mz ez];
    simpl; try discriminate; try reflexivity;
    try destruct sx; try destruct sy; try destruct sz; simpl;
    try discriminate; try reflexivity;
    intros Hxy Hyz; compare_cases.
Qed.

Lemma compareNumeric_good (userVal reqVal : maybe number) :
  status (compareNumeric userVal reqVal) = "good" <->
  nullish_or_NaN reqVal = false /\ nullish_or_NaN userVal = false /\
  Num.ge (ToNumber userVal) (ToNumber reqVal) = true.
Proof.
  unfold compareNumeric.
  destruct (nullish_or_NaN reqVal); [simpl; split; [done|by intros (? & _)]|].
  destruct (nullish_or_NaN userVal); [simpl; split; [done|by intros (_ & ? & _)]|].
  destruct (Num.ge _ _); simpl; split; try done. by intros (_ & _ & ?).
Qed.

Lemma ge_not_NaN (x y : number) :
  Num.ge x y = true -> Num.isNaN x = false /\ Num.isNaN y = false.
Proof.
  unfold Num.ge. destruct x as [s|s| |s m e], y as [s'|s'| |s' m' e']; simpl; done.
Qed.

(** X4.  A value equal to the requirement meets it: for every number [x],
    infinite ones included, comparing [x] against [x] is [good]. *)
Theorem compareNumeric_equal_meets (x : number) :
  Num.isNaN x = false ->
  status (compareNumeric (Val x) (Val x)) = "good".
Proof.
  intros Hx. apply compareNumeric_good. simpl. rewrite Hx.
  split; [done|]. split; [done|]. by apply ge_refl.
Qed.

Lemma compareNumeric_equal_meets_witness :
  status (compareNumeric (Val Num.Infinity) (Val Num.Infinity)) = "good".
Proof. apply compareNumeric_equal_meets. reflexivity. Defined.

(** X5.  More never hurts: when a value meets a requirement, every value
    [>=] it meets every numeric requirement [<=] that one. *)
Theorem compareNumeric_monotone (u u' r r' : number) :
  status (compareNumeric (Val u) (Val r)) = "good" ->
  Num.ge u' u = true -> Num.ge r r' = true ->
  status (compareNumeric (Val u') (Val r')) = "good".
Proof.
  intros Hgood Hu Hr. apply compareNumeric_good in Hgood as (_ & _ & Hur).
  apply compareNumeric_good. simpl in *.
  destruct (ge_not_NaN _ _ Hu) as [Hu' _]. destruct (ge_not_NaN _ _ Hr) as [_ Hr'].
  split; [done|]. split; [done|].
  apply (ge_trans u' u r'); [done|]. by apply (ge_trans u r r').
Qed.

Lemma compareNumeric_monotone_witness :
  status (compareNumeric (Val (Num.of_Z 64)) (Val (Num.of_Z 4))) = "good".
Proof.
  apply (compareNumeric_monotone (Num.of_Z 16) (Num.of_Z 64) (Num.of_Z 8) (Num.of_Z 4));
    reflexivity.
Defined.

(** ** Cards *)

Lemma compareNumeric_no_user (reqVal : maybe number) :
  status (compareNumeric Undefined reqVal) = "unknown".
Proof. unfold compareNumeric. by destruct (nullish_or_NaN reqVal). Qed.

(** X6.  Without a stored profile nothing is flagged: for every requirement
    record the card has the [good] badge, labelled "Set your specs", and its
    RAM, VRAM and storage rows show the requirement only. *)
Theorem renderReqCard_without_profile (title : string) (req : Requirement.t) :
  badge_of (renderReqCard title (Some req) None) = Some "badge good" /\
  label_of (renderReqCard title (Some req) None) = Some "Set your specs" /\
  rows_of (renderReqCard title (Some req) None)
  = [fmtGb (Requirement.ram_gb req) +:+ " ";
     fmtGb (Requirement.vram_gb req) +:+ " ";
     fmtGb (Requirement.storage_gb req) +:+ " "].
Proof.
  split; [|split].
  - cbn [renderReqCard badge_of]. unfold tier_status, ramCmp, vramCmp, stoCmp.
    cbn [optional_chain]. by rewrite !compareNumeric_no_user.
  - reflexivity.
  - cbn [renderReqCard rows_of]. reflexivity.
Qed.

Lemma append_GB_not_Unknown (s : string) : s +:+ " GB" <> "Unknown".
Proof.
  do 8 (destruct s as [ |? s]; [discriminate|]); simpl. discriminate.
Qed.

(** ** The profile store and the rest of [localStorage] *)

(** X8.  The profile store keeps to its key: saving and clearing leave
    every other entry of [localStorage] as it was, and what [loadSpecs]
    returns depends on the entry under the profile key alone. *)
Theorem profile_store_keeps_to_its_key (k : string) (ls ls' : gmap string string)
    (specs : value) :
  k <> SPECS_KEY ->
  getItem k (saveSpecs specs ls) = getItem k ls /\
  getItem k (clearSpecs ls) = getItem k ls /\
  (getItem SPECS_KEY ls = getItem SPECS_KEY ls' -> loadSpecs ls = loadSpecs ls').
Proof.
  intros Hk. unfold getItem, saveSpecs, clearSpecs, setItem, removeItem.
  split; [by rewrite lookup_insert_ne|]. split; [by rewrite lookup_delete_ne|].
  unfold loadSpecs, getItem. by intros ->.
Qed.

Lemma profile_store_keeps_to_its_key_witness :
  getItem "theme" (saveSpecs VNull (setItem "theme" "dark" ∅)) = Some "dark".
Proof.
  destruct (profile_store_keeps_to_its_key "theme" (setItem "theme" "dark" ∅) ∅ VNull)
    as [-> _]; [discriminate|].
  apply lookup_insert_eq.
Defined.

(** X9.  The store holds one profile and the last write wins: a save
    replaces the one before it, a clear undoes any save, a save after a
    clear is that save, and clearing twice is clearing once. *)
Theorem profile_store_last_write_wins (a b : value) (ls : gmap string string) :
  saveSpecs b (saveSpecs a ls) = saveSpecs b ls /\
  clearSpecs (saveSpecs a ls) = clearSpecs ls /\
  saveSpecs b (clearSpecs ls) = saveSpecs b ls /\
  clearSpecs (clearSpecs ls) = clearSpecs ls.
Proof.
  unfold saveSpecs, clearSpecs, setItem, removeItem.
  split; [apply insert_insert_eq|]. split; [apply delete_insert_eq|].
  split; [apply insert_delete_eq|]. apply delete_delete_eq.
Qed.

(** ** The Save and Clear buttons, and the dialog *)

Lemma loadSpecs_saveSpecs_storable (p : UserProfile.t) (ls : gmap string string) :
  storable p ->
  loadSpecs (saveSpecs (UserProfile.to_value p) ls) = Normal (UserProfile.to_value p).
Proof.
  intros Hp.
  destruct (parse_stringify_object (UserProfile.properties p)
              (profile_properties_stored p Hp) (profile_keys_NoDup p))
    as (text & Htext & Htruthy & Hparse).
  unfold loadSpecs, saveSpecs, getItem, setItem, UserProfile.to_value.
  rewrite Htext, lookup_insert_eq, Htruthy. simpl. by rewrite Hparse.
Qed.

(** X10.  After Save and after Clear the profile in memory is the one a
    reload would find: after Clear both are [null], whatever was stored; after
    Save of a form whose numbers are stored as they are, [loadSpecs] returns
    [state.specs].  Neither button touches the index, the list, the
    selection or the shard cache. *)
Theorem buttons_keep_memory_and_store_in_step (els : Els) (w : World) :
  (storable (readSpecsFromForm els) ->
     loadSpecs (localStorage (onSaveSpecs els w))
     = Normal (specs (state (onSaveSpecs els w)))) /\
  (specs (state (onClearSpecs w)) = VNull /\
   loadSpecs (localStorage (onClearSpecs w)) = Normal VNull) /\
  (forall w', w' = onSaveSpecs els w \/ w' = onClearSpecs w ->
     index (state w') = index (state w) /\
     filtered (state w') = filtered (state w) /\
     selected (state w') = selected (state w) /\
     shardCache (state w') = shardCache (state w) /\
     requests w' = requests w).
Proof.
  split; [|split].
  - intros Hp. simpl. by apply loadSpecs_saveSpecs_storable.
  - split; [done|]. simpl. apply loadSpecs_clearSpecs.
  - by intros w' [-> | ->].
Qed.

Lemma buttons_keep_memory_and_store_in_step_witness :
  let w := Examples.world_answering Examples.shard_1_response in
  loadSpecs (localStorage (onSaveSpecs MoreExamples.padded_form w))
  = Normal (specs (state (onSaveSpecs MoreExamples.padded_form w))).
Proof.
  intros w.
  destruct (buttons_keep_memory_and_store_in_step MoreExamples.padded_form w) as [H _].
  apply H. split; [|split]; by vm_compute.
Defined.

Lemma get_property_profile (p : UserProfile.t) :
  let v := UserProfile.to_value p in
  get_property v "cpu" = text_value (UserProfile.cpu p) /\
  get_property v "gpu" = text_value (UserProfile.gpu p) /\
  get_property v "ram_gb" = number_value (UserProfile.ram_gb p) /\
  get_property v "vram_gb" = number_value (UserProfile.vram_gb p) /\
  get_property v "storage_gb" = number_value (UserProfile.storage_gb p).
Proof.
  destruct p as [c g r v s]. unfold UserProfile.to_value, UserProfile.properties.
  cbn [UserProfile.cpu UserProfile.gpu UserProfile.ram_gb UserProfile.vram_gb
       UserProfile.storage_gb].
  destruct c, g, r, v, s; repeat split; reflexivity.
Qed.

Lemma trimmed_or_null_reopened (v : string) :
  trimmed_or_null
    (value_to_string (value_or (text_value (trimmed_or_null v)) (VStr EmptyString)))
  = trimmed_or_null v.
Proof.
  unfold trimmed_or_null at 2 3.
  destruct (Str.trim v) as [ |c t] eqn:E; [reflexivity|].
  cbn. unfold trimmed_or_null. by rewrite <- E, trim_idempotent, E.
Qed.

Lemma toNum_reopened (v : string) :
  reopened (toNum v)
    (toNum (value_to_string
       (value_nullish_or (number_value (toNum v)) (VStr EmptyString)))).
Proof.
  unfold toNum at 1 3.
  destruct (Num.isFinite (NumParse.StringToNumber v)) eqn:E; [|reflexivity].
  cbn. intros Hx. unfold toNum. by rewrite Hx, E.
Qed.

(** X11.  Opening the dialog on a profile that was read from the form and
    reading the form back, with no edit: the CPU and GPU come back as they
    were; a number that its shown text gives back comes back as it was; a
    numeric field that was [null] comes back as the number 0.  The search
    text and the category are not touched. *)
Theorem openModal_then_readSpecsFromForm (els0 els : Els) (st : State) :
  let p := readSpecsFromForm els0 in
  let els' := openModal (with_specs (UserProfile.to_value p) st) els in
  let p' := readSpecsFromForm els' in
  UserProfile.cpu p' = UserProfile.cpu p /\
  UserProfile.gpu p' = UserProfile.gpu p /\
  reopened (UserProfile.ram_gb p) (UserProfile.ram_gb p') /\
  reopened (UserProfile.vram_gb p) (UserProfile.vram_gb p') /\
  reopened (UserProfile.storage_gb p) (UserProfile.storage_gb p') /\
  search els' = search els /\ filter_mode els' = filter_mode els.
Proof.
  intros p els' p'.
  destruct (get_property_profile p) as (Hc & Hg & Hr & Hv & Hs).
  subst p' els'. subst p.
  set (v := UserProfile.to_value (readSpecsFromForm els0)) in *.
  assert (Hv' : value_or (specs (with_specs v st)) (VObj []) = v) by reflexivity.
  unfold openModal. rewrite Hv'.
  cbn [readSpecsFromForm UserProfile.cpu UserProfile.gpu UserProfile.ram_gb
       UserProfile.vram_gb UserProfile.storage_gb specCpu specGpu specRam
       specVram specStorage search filter_mode] in *.
  rewrite Hc, Hg, Hr, Hv, Hs.
  split; [apply trimmed_or_null_reopened|]. split; [apply trimmed_or_null_reopened|].
  split; [apply toNum_reopened|]. split; [apply toNum_reopened|].
  split; [apply toNum_reopened|]. done.
Qed.

Lemma openModal_then_readSpecsFromForm_witness :
  let p := readSpecsFromForm MoreExamples.padded_form in
  let els' := openModal (with_specs (UserProfile.to_value p) Examples.fresh_state)
                Examples.empty_form in
  UserProfile.ram_gb p = Val (Num.of_Z 16) /\
  UserProfile.ram_gb (readSpecsFromForm els') = Val (Num.of_Z 16) /\
  UserProfile.storage_gb p = Null /\
  UserProfile.storage_gb (readSpecsFromForm els') = Val Num.zero.
Proof.
  intros p els'.
  destruct (openModal_then_readSpecsFromForm MoreExamples.padded_form
              Examples.empty_form Examples.fresh_state) as (_ & _ & Hr & _ & Hs & _).
  fold p in Hr, Hs. fold els' in Hr, Hs.
  assert (Ep : UserProfile.ram_gb p = Val (Num.of_Z 16)) by reflexivity.
  assert (Es : UserProfile.storage_gb p = Null) by reflexivity.
  rewrite Ep in Hr. rewrite Es in Hs.
  split; [reflexivity|]. split; [apply Hr; reflexivity|]. split; [reflexivity|exact Hs].
Defined.

(** ** More on the shard cache *)



(** ** The shard resource *)

Lemma filler_zeros (n : nat) (cur : string) :
  all_zeros cur = true ->
  all_zeros (Str.filler n "0" cur) = true /\
  String.length (Str.filler n "0" cur) = n.
Proof.
  revert cur. induction n as [ |n IH]; intros cur Hcur; [done|].
  destruct cur as [ |c cur]; simpl.
  - destruct (IH EmptyString eq_refl) as [H1 H2]. by rewrite H1, H2.
  - simpl in Hcur. apply andb_prop in Hcur as [Hc Hcur].
    destruct (IH cur Hcur) as [H1 H2]. by rewrite Hc, H1, H2.
Qed.

(** X14.  The resource of a shard is named by the decimal text of the shard
    id, with zeros in front up to five characters and none when the text
    has five or more: [data/shards/shard_] + zeros + id + [.json]. *)
Theorem shard_url_zero_padded (shardId : Z) :
  exists zeros,
    shard_url shardId
    = "data/shards/shard_" +:+ zeros +:+ String_of shardId +:+ ".json" /\
    all_zeros zeros = true /\
    String.length zeros = (5 - String.length (String_of shardId))%nat.
Proof.
  unfold shard_url, Str.padStart.
  destruct (5 <=? String.length (String_of shardId))%nat eqn:E.
  - exists EmptyString. split; [done|]. split; [done|].
    apply Nat.leb_le in E. simpl. lia.
  - destruct (filler_zeros (5 - String.length (String_of shardId)) "0" eq_refl)
      as [H1 H2].
    eexists. split; [|split; [exact H1|exact H2]].
    by rewrite !append_assoc.
Qed.

(** X15.  Shards are consecutive runs of appids: with a positive shard
    size, a larger appid is never in an earlier shard, adding the shard size
    to an appid moves it to the next shard, and the appids from 0 below the
    shard size are in shard 0. *)
Theorem shardForAppid_runs (st : State) :
  0 < Index.shard_size (index st) ->
  (forall a b, a <= b -> shardForAppid st a <= shardForAppid st b) /\
  (forall a, shardForAppid st (a + Index.shard_size (index st))
             = shardForAppid st a + 1) /\
  (forall a, 0 <= a < Index.shard_size (index st) -> shardForAppid st a = 0).
Proof.
  intros Hs. unfold shardForAppid.
  split; [|split]; intros; rewrite !Math_floor_quotient by exact Hs.
  - by apply Z.div_le_mono.
  - replace (a + Index.shard_size (index st))
      with (a + 1 * Index.shard_size (index st)) by lia.
    rewrite Z.div_add; lia.
  - by apply Z.div_small.
Qed.

Lemma shardForAppid_runs_witness :
  shardForAppid Examples.fresh_state 2245 = shardForAppid Examples.fresh_state 1245 + 1.
Proof.
  assert (H : 0 < Index.shard_size (index Examples.fresh_state)) by (simpl; lia).
  destruct (shardForAppid_runs Examples.fresh_state H) as (_ & Hshift & _).
  exact (Hshift 1245).
Defined.

(** ** Selecting an app *)

Lemma find_app_found (appid : Z) (elements : list value) (v : value) :
  find_app appid elements = Normal v ->
  v = VUndefined \/ (v ∈ elements /\ has_appid appid v = Normal true).
Proof.
  induction elements as [ |x l IH]; simpl.
  - intros [= <-]. by left.
  - destruct (has_appid appid x) as [[ | ]|e] eqn:E; [| |done].
    + intros [= <-]. right. split; [left|done].
    + intros H. destruct (IH H) as [->|[Hin Hv]]; [by left|].
      right. split; [by right|done].
Qed.

Lemma has_appid_truthy (appid : Z) (v : value) :
  has_appid appid v = Normal true -> truthy v = true.
Proof. destruct v; simpl; try done. Qed.

Lemma loadShard_keeps (shardId : Z) (w : World) :
  let w' := snd (loadShard shardId w) in
  localStorage w' = localStorage w /\
  filtered (state w') = filtered (state w) /\
  selected (state w') = selected (state w) /\
  specs (state w') = specs (state w).
Proof.
  intros w'. subst w'.
  destruct (shardCache (state w) !! shardId) as [d| ] eqn:Hc.
  - by rewrite (loadShard_hit _ _ _ Hc).
  - rewrite (loadShard_miss _ _ Hc).
    destruct (network w (requests w) (shard_url shardId)) as [ |res]; [done|].
    destruct (ok res); [|done].
    destruct (JSON.parse (body res)) as [d|e]; done.
Qed.

(** X16.  When [selectApp] returns, the selection is [null] or an element
    of the cached shard of the appid that has that appid, the first such
    element; an app that is not in its shard selects [null] and is no
    error.  When [selectApp] throws, the selection is as it was.  Either
    way the list, the profile and [localStorage] are untouched. *)
Theorem selectApp_selection (appid : Z) (w : World) :
  let r := selectApp appid w in
  (fst r = Normal tt ->
     selected (state (snd r)) = VNull \/
     exists elements,
       shardCache (state (snd r)) !! shardForAppid (state w) appid
       = Some (VArr elements) /\
       selected (state (snd r)) ∈ elements /\
       has_appid appid (selected (state (snd r))) = Normal true /\
       find_app appid elements = Normal (selected (state (snd r)))) /\
  (forall e, fst r = Throw e -> selected (state (snd r)) = selected (state w)) /\
  filtered (state (snd r)) = filtered (state w) /\
  specs (state (snd r)) = specs (state w) /\
  localStorage (snd r) = localStorage w.
Proof.
  intros r. subst r.
  pose proof (loadShard_keeps (shardForAppid (state w) appid) w) as Hk.
  unfold selectApp, bind, get_state, set_state, throw. simpl in *.
  destruct (loadShard (shardForAppid (state w) appid) w) as [[shard|e] w1] eqn:Hl;
    simpl in *; destruct Hk as (Hls & Hf & Hsel & Hsp).
  - pose proof (loadShard_Normal _ _ _ _ Hl) as Hc.
    destruct shard as [ | |b|x|s|l|ps]; simpl;
      try (split; [done|]; split; [by intros e' _|done]).
    destruct (find_app appid l) as [v|e'] eqn:Hfind; simpl.
    + split; [|split; [done|done]]. intros _.
      destruct (find_app_found _ _ _ Hfind) as [->|[Hin Hv]]; [by left|].
      rewrite (has_appid_truthy _ _ Hv). right. by exists l.
    + split; [done|]. split; [by intros e'' _|done].
  - split; [done|]. split; [by intros e' _|done].
Qed.

Lemma selectApp_loaded (appid : Z) (w w1 : World) :
  selectApp appid w = (Normal tt, w1) ->
  exists shard, shardCache (state w1) !! shardForAppid (state w) appid = Some shard.
Proof.
  intros H.
  destruct (selectApp_state appid w) as (_ & Hc & _). rewrite H in Hc. simpl in Hc.
  unfold selectApp, bind, get_state in H. simpl in H.
  destruct (loadShard (shardForAppid (state w) appid) w) as [[shard|e] wl] eqn:Hl;
    [|discriminate H].
  exists shard. rewrite Hc. simpl. by apply (loadShard_Normal _ _ _ _ Hl).
Qed.

(** X17.  Selecting a second app of the same shard fetches nothing: after a
    selection that returned, selecting any appid with the same shard id
    sends no request. *)
Theorem selectApp_same_shard_no_request (a b : Z) (w w1 : World) :
  selectApp a w = (Normal tt, w1) ->
  shardForAppid (state w) b = shardForAppid (state w) a ->
  requests (snd (selectApp b w1)) = requests w1.
Proof.
  intros Ha Hb.
  destruct (selectApp_loaded _ _ _ Ha) as [shard Hc].
  assert (Hi : index (state w1) = index (state w)).
  { destruct (selectApp_state a w) as (Hi & _). rewrite Ha in Hi. simpl in Hi.
    rewrite Hi. apply loadShard_index. }
  destruct (selectApp_state b w1) as (_ & _ & ->).
  assert (Hs : shardForAppid (state w1) b = shardForAppid (state w) a).
  { rewrite <- Hb. unfold shardForAppid. by rewrite Hi. }
  rewrite Hs, (loadShard_hit _ _ _ Hc). reflexivity.
Qed.

Lemma selectApp_same_shard_no_request_witness :
  let w := Examples.world_answering Examples.shard_1_response in
  requests (snd (selectApp 1999 (snd (selectApp 1245 w))))
  = ["data/shards/shard_00001.json"].
Proof.
  intros w.
  destruct (selectApp 1245 w) as [[[]|e] w1] eqn:H; [|vm_compute in H; discriminate H].
  simpl. rewrite (selectApp_same_shard_no_request 1245 1999 w w1 H eq_refl).
  vm_compute in H. by injection H as <-.
Defined.

(** ** Loading the index *)

(** X18.  [loadIndex] sends one request for [data/index.json] each time it
    is called, cached or not, and changes nothing else.  It returns the
    parsed body of a successful response, and throws when the request is
    refused, when the response is not successful ("Failed to load index")
    and when the body is not JSON. *)
Theorem loadIndex_one_request (w : World) :
  let r := loadIndex w in
  requests (snd r) = "data/index.json" :: requests w /\
  state (snd r) = state w /\
  localStorage (snd r) = localStorage w /\
  fst r = match network w (requests w) "data/index.json" with
          | Rejected => Throw (TypeError "Failed to fetch")
          | Responded res =>
              if ok res then JSON.parse (body res)
              else Throw (Error "Failed to load index")
          end.
Proof.
  intros r. subst r. unfold loadIndex, bind, fetch, json, throw. simpl.
  destruct (network w (requests w) "data/index.json") as [ |res]; [done|].
  destruct (ok res); simpl; [|done].
  destruct (JSON.parse (body res)); done.
Qed.

(** ** More on the catalog filter *)

Lemma lower_char_idempotent (c : ascii) :
  Str.lower_char (Str.lower_char c) = Str.lower_char c.
Proof. destruct c as [[] [] [] [] [] [] [] []]; reflexivity. Qed.

Lemma lower_char_white_space (c : ascii) :
  Str.is_white_space (Str.lower_char c) = Str.is_white_space c.
Proof. destruct c as [[] [] [] [] [] [] [] []]; reflexivity. Qed.

Lemma toLowerCase_idempotent (s : string) :
  Str.toLowerCase (Str.toLowerCase s) = Str.toLowerCase s.
Proof.
  induction s as [ |c s IH]; simpl; [done|]. by rewrite lower_char_idempotent, IH.
Qed.

Lemma trimStart_toLowerCase (s : string) :
  Str.trimStart (Str.toLowerCase s) = Str.toLowerCase (Str.trimStart s).
Proof.
  induction s as [ |c s IH]; simpl; [done|]. rewrite lower_char_white_space.
  destruct (Str.is_white_space c); [exact IH|done].
Qed.

Lemma trimEnd_toLowerCase (s : string) :
  Str.trimEnd (Str.toLowerCase s) = Str.toLowerCase (Str.trimEnd s).
Proof.
  induction s as [ |c s IH]; [done|].
  change (Str.toLowerCase (String c s))
    with (String (Str.lower_char c) (Str.toLowerCase s)).
  rewrite !trimEnd_unfold, IH, lower_char_white_space.
  destruct (Str.trimEnd s); simpl; [|done].
  by destruct (Str.is_white_space c).
Qed.

Lemma trim_toLowerCase (s : string) :
  Str.trim (Str.toLowerCase s) = Str.toLowerCase (Str.trim s).
Proof. unfold Str.trim. by rewrite trimStart_toLowerCase, trimEnd_toLowerCase. Qed.

(** The query test looks at the query through its trimmed, lower-cased
    form only. *)
Lemma matches_queryb_normal_form (q : string) (a : AppSummary.t) :
  FilterSpec.matches_queryb q a
  = if Str.truthy (Str.toLowerCase (Str.trim q))
    then Str.includes (Str.toLowerCase (or_else (AppSummary.name a) EmptyString))
           (Str.toLowerCase (Str.trim q))
    else true.
Proof.
  unfold FilterSpec.matches_queryb. rewrite toLowerCase_truthy.
  by destruct (Str.trim q).
Qed.

Lemma applyFilters_same_normal_form (els els' : Els) (st : State) :
  filter_mode els' = filter_mode els ->
  Str.toLowerCase (Str.trim (search els')) = Str.toLowerCase (Str.trim (search els)) ->
  filtered (applyFilters els' st) = filtered (applyFilters els st).
Proof.
  intros Hm Hq. rewrite !applyFilters_filtered. f_equal.
  apply List.filter_ext. intros a. unfold passes.
  by rewrite Hm, !matches_queryb_normal_form, Hq.
Qed.

(** X19.  The search ignores the letter case of the query and the white
    space around it: the lower-cased query and the trimmed query list what
    the query lists. *)
Theorem applyFilters_ignores_case_and_outer_space (els : Els) (st : State) :
  filtered (applyFilters (with_search (Str.toLowerCase (search els)) els) st)
  = filtered (applyFilters els st) /\
  filtered (applyFilters (with_search (Str.trim (search els)) els) st)
  = filtered (applyFilters els st).
Proof.
  split; apply applyFilters_same_normal_form; try reflexivity; simpl.
  - by rewrite trim_toLowerCase, toLowerCase_idempotent.
  - by rewrite trim_idempotent.
Qed.

(** X20.  A category the code does not know filters nothing: when the
    selector holds a text other than "game", "dlc" and "hasreqs", the list is
    what the mode "all" gives. *)
Theorem applyFilters_other_mode_is_all (els : Els) (st : State) :
  filter_mode els <> "game" -> filter_mode els <> "dlc" ->
  filter_mode els <> "hasreqs" ->
  filtered (applyFilters els st)
  = FilterSpec.result FilterSpec.all (search els) (Index.apps (index st)).
Proof.
  intros Hg Hd Hh. apply String.eqb_neq in Hg, Hd, Hh.
  unfold FilterSpec.result. rewrite applyFilters_filtered, filter_filter. f_equal.
  apply List.filter_ext. intros a. unfold passes. by rewrite Hg, Hd, Hh.
Qed.

Lemma applyFilters_other_mode_is_all_witness :
  length (filtered (applyFilters MoreExamples.padded_form Examples.fresh_state)) = 2%nat.
Proof.
  rewrite (applyFilters_other_mode_is_all MoreExamples.padded_form Examples.fresh_state);
    [reflexivity|discriminate..].
Defined.

Lemma elem_of_filter_bool (A : Type) (f : A -> bool) (l : list A) (a : A) :
  a ∈ List.filter f l <-> a ∈ l /\ f a = true.
Proof. rewrite !list_elem_of_In. apply List.filter_In. Qed.

(** X21.  The list holds entries that pass and, short of the cut, all of
    them: every listed entry is in the index and passes the category and
    query tests; the list has as many entries as pass, up to 200; and when
    at most 200 entries pass, as when the index has at most 200 entries,
    every entry that passes is listed. *)
Theorem applyFilters_lists_what_passes (els : Els) (st : State) :
  let apps := Index.apps (index st) in
  let listed := filtered (applyFilters els st) in
  (forall a, a ∈ listed -> a ∈ apps /\ passes els a = true) /\
  length listed = Nat.min 200 (length (List.filter (passes els) apps)) /\
  ((length (List.filter (passes els) apps) <= 200)%nat ->
     forall a, a ∈ apps -> passes els a = true -> a ∈ listed) /\
  ((length apps <= 200)%nat -> listed = List.filter (passes els) apps).
Proof.
  intros apps listed. subst listed. rewrite applyFilters_filtered. fold apps.
  split; [|split; [|split]].
  - intros a Ha. apply elem_of_filter_bool.
    by apply (elem_of_sublist (take 200 (List.filter (passes els) apps)));
      [|apply sublist_take].
  - apply length_take.
  - intros Hlen a Ha Hp. rewrite take_ge by exact Hlen.
    by apply elem_of_filter_bool.
  - intros Hlen. apply take_ge.
    pose proof (sublist_length _ _ (filter_sublist (passes els) apps)). lia.
Qed.

(** ** The list on the page *)

Lemma or_else_not_empty (v : maybe string) (fallback : string) :
  fallback <> EmptyString -> or_else v fallback <> EmptyString.
Proof. destruct v as [ | |[ |c s]]; simpl; done. Qed.

(** X22.  [renderList] writes one item per listed entry, in order, each
    selecting the appid of its entry when clicked; no item has an empty
    title, an entry without a name being titled by its appid; and right
    after [applyFilters] there are at most 200 items. *)
Theorem renderList_items (els : Els) (st : State) :
  map item_appid (items (renderList st)) = map AppSummary.appid (filtered st) /\
  length (items (renderList st)) = length (filtered st) /\
  (forall item, item ∈ items (renderList st) -> item_title item <> EmptyString) /\
  (length (items (renderList (applyFilters els st))) <= 200)%nat.
Proof.
  unfold renderList. cbn [items]. split; [|split; [|split]].
  - rewrite map_map. reflexivity.
  - apply length_map.
  - intros item Hitem. apply list_elem_of_fmap in Hitem as (a & -> & _).
    apply or_else_not_empty. discriminate.
  - rewrite length_map, applyFilters_filtered, length_take. lia.
Qed.

(** ** From the form to the badge *)

Lemma tier_status_badge (req : Requirement.t) (userSpecs : option UserProfile.t)
    (title : string) :
  status (ramCmp req userSpecs) = "bad" ->
  badge_of (renderReqCard title (Some req) userSpecs) = Some "badge bad".
Proof.
  intros H. cbn [renderReqCard badge_of].
  assert (Hb : tier_status req userSpecs = "bad") by (apply tier_status_bad; by left).
  by rewrite Hb.
Qed.

(** X23.  An empty RAM field counts as 0 GB, not as unknown: a profile read
    from a form whose RAM input is empty or white space gets the [bad] badge
    on every card whose RAM requirement is a number above 0. *)
Theorem empty_ram_field_fails_positive_requirement (els : Els) (req : Requirement.t)
    (title : string) (r : number) :
  all_white_space (specRam els) = true ->
  Requirement.ram_gb req = Val r ->
  Num.lt Num.zero r = true ->
  status (ramCmp req (Some (readSpecsFromForm els))) = "bad" /\
  badge_of (renderReqCard title (Some req) (Some (readSpecsFromForm els)))
  = Some "badge bad".
Proof.
  intros Hws Hreq Hr.
  assert (Hbad : status (ramCmp req (Some (readSpecsFromForm els))) = "bad").
  { unfold ramCmp. cbn [optional_chain readSpecsFromForm UserProfile.ram_gb].
    rewrite Hreq. apply trim_empty in Hws.
    unfold toNum, NumParse.StringToNumber. rewrite Hws.
    assert (Hn : Num.isNaN r = false) by (by destruct r).
    change (status (compareNumeric (Val Num.zero) (Val r)) = "bad").
    unfold compareNumeric. cbn [nullish_or_NaN ToNumber]. rewrite Hn.
    change (Num.isNaN Num.zero) with false. cbv iota.
    destruct (ge_or_lt Num.zero r eq_refl Hn) as [[_ Hl]|[Hg _]]; [congruence|].
    by rewrite Hg. }
  split; [exact Hbad|]. by apply tier_status_badge.
Qed.

Lemma empty_ram_field_fails_positive_requirement_witness :
  badge_of (renderReqCard "Minimum" (Some Examples.needs_8_gb)
              (Some (readSpecsFromForm Examples.empty_form))) = Some "badge bad".
Proof.
  destruct (empty_ram_field_fails_positive_requirement Examples.empty_form
              Examples.needs_8_gb "Minimum" (Num.of_Z 8)) as [_ H]; [reflexivity..|].
  exact H.
Defined.

(** ** The detail on the page *)

Lemma selectApp_keeps (appid : Z) (w : World) :
  specs (state (snd (selectApp appid w))) = specs (state w) /\
  (forall e, fst (selectApp appid w) = Throw e ->
     selected (state (snd (selectApp appid w))) = selected (state w)).
Proof.
  pose proof (loadShard_keeps (shardForAppid (state w) appid) w) as Hk.
  unfold selectApp, bind, get_state, set_state, throw. simpl in *.
  destruct (loadShard (shardForAppid (state w) appid) w) as [[shard|e] w1];
    simpl in *; destruct Hk as (_ & _ & Hsel & Hsp).
  - destruct shard as [ | |b|x|s|l|ps]; simpl; try (split; [done|by intros e' _]).
    destruct (find_app appid l) as [v|e']; simpl; (split; [done|]);
      [by intros e'' [=]|by intros e'' _].
  - split; [done|by intros e' _].
Qed.

Lemma rerender_shows (st : State) (page : option Detail) :
  truthy (selected st) = true ->
  exists d, rerender st page = Some d /\
    detail_app d = selected st /\ detail_specs d = specs st /\
    detail_platform d = "pc".
Proof.
  intros H. unfold rerender. rewrite H. by eexists.
Qed.

Lemma rerender_on_a_tab (st : State) (page : option Detail) (d : Detail) :
  (forall d0, page = Some d0 -> detail_platform d0 ∈ tabs) ->
  rerender st page = Some d -> detail_platform d ∈ tabs.
Proof.
  intros Hp. unfold rerender. destruct (truthy (selected st)).
  - intros [= <-]. cbn. unfold tabs. set_solver.
  - apply Hp.
Qed.

Lemma page_step_shows_selection (s s' : World * option Detail) :
  page_step s s' -> shows_selection s -> shows_selection s'.
Proof.
  intros [appid w page|els w page|w page|p w d Hin|els w page] Hs;
    unfold shows_selection in *; cbn [fst snd] in *.
  - destruct (selectApp_keeps appid w) as [Hspecs Hthrow].
    destruct (selectApp appid w) as [[[]|e] w1] eqn:E; cbn [fst snd] in *.
    + intros Ht. destruct (rerender_shows (state w1) page Ht)
        as (d & Hd & Ha & Hsp & _). by exists d.
    + rewrite (Hthrow e eq_refl), Hspecs. exact Hs.
  - intros Ht. destruct (rerender_shows _ page Ht) as (d & Hd & Ha & Hsp & _).
    by exists d.
  - intros Ht. destruct (rerender_shows _ page Ht) as (d & Hd & Ha & Hsp & _).
    by exists d.
  - intros Ht. destruct (Hs Ht) as (d0 & [= <-] & Ha & Hsp). by eexists.
  - exact Hs.
Qed.

Lemma page_step_on_a_tab (s s' : World * option Detail) :
  page_step s s' -> on_a_tab s -> on_a_tab s'.
Proof.
  intros [appid w page|els w page|w page|p w d Hin|els w page] Hs;
    unfold on_a_tab in *; cbn [fst snd] in *.
  - destruct (fst (selectApp appid w)); [|exact Hs].
    intros d. by apply rerender_on_a_tab.
  - intros d. by apply rerender_on_a_tab.
  - intros d. by apply rerender_on_a_tab.
  - by intros d' [= <-].
  - exact Hs.
Qed.

(** X24 (detail on the page, [renderDetail], [selectApp] and the Save and
    Clear handlers).  Over any run of clicks on list items, Save, Clear,
    platform tabs and filter changes, each run to its end before the next,
    from a page where this holds (as on load, with nothing selected and no
    detail rendered): whenever [state.selected] is truthy, the detail on the
    page is that app, drawn against the profile that is in [state.specs];
    and the active tab is always one of [pc], [mac], [linux]. *)
Theorem detail_follows_selection_and_profile (s s' : World * option Detail) :
  shows_selection s -> on_a_tab s -> rtc page_step s s' ->
  shows_selection s' /\ on_a_tab s'.
Proof.
  intros Hs Ht Hsteps. induction Hsteps as [s|s s1 s' Hstep _ IH]; [done|].
  apply IH; [by eapply page_step_shows_selection|by eapply page_step_on_a_tab].
Qed.

Lemma detail_follows_selection_and_profile_witness :
  exists d, snd MoreExamples.after_save = Some d /\
    detail_app d = MoreExamples.app_1245 /\
    detail_specs d
    = UserProfile.to_value (readSpecsFromForm MoreExamples.padded_form).
Proof.
  set (w := Examples.world_answering Examples.shard_1_response).
  assert (E : (snd (selectApp 1245 w),
               match fst (selectApp 1245 w) with
               | Normal _ => rerender (state (snd (selectApp 1245 w))) None
               | Throw _ => None
               end) = MoreExamples.after_select) by (by vm_compute).
  destruct (detail_follows_selection_and_profile (w, None) MoreExamples.after_save)
    as [H _].
  - intros H. by vm_compute in H.
  - by intros d [=].
  - apply (rtc_l _ _ MoreExamples.after_select); [rewrite <- E; apply page_select|].
    apply (rtc_l _ _ MoreExamples.on_mac).
    { apply (page_tab "mac"). apply elem_of_cons. right. apply elem_of_cons. by left. }
    apply (rtc_l _ _ MoreExamples.after_save); [apply page_save|apply rtc_refl].
  - destruct H as (d & Hd & Ha & Hsp); [by vm_compute|].
    exists d. split; [exact Hd|]. split; [rewrite Ha; by vm_compute|exact Hsp].
Defined.

(** X25 (Save and Clear handlers, [renderDetail]).  With an app selected,
    Save and Clear draw its detail again on the Windows tab, whatever tab
    was active, against the profile just stored ([null] after Clear).  With
    nothing selected the detail on the page is left as it was, drawn against
    the profile of the time it was rendered. *)
Theorem save_and_clear_redraw_on_first_tab
    (els : Els) (w : World) (page : option Detail) :
  (truthy (selected (state w)) = true ->
     rerender (state (onSaveSpecs els w)) page
     = Some {| detail_app := selected (state w); detail_platform := "pc";
               detail_specs := UserProfile.to_value (readSpecsFromForm els) |} /\
     rerender (state (onClearSpecs w)) page
     = Some {| detail_app := selected (state w); detail_platform := "pc";
               detail_specs := VNull |}) /\
  (truthy (selected (state w)) = false ->
     rerender (state (onSaveSpecs els w)) page = page /\
     rerender (state (onClearSpecs w)) page = page).
Proof.
  unfold rerender, onSaveSpecs, onClearSpecs, renderDetail. cbn.
  split; intros ->; by split.
Qed.

Lemma save_and_clear_redraw_on_first_tab_witness :
  let s := MoreExamples.on_mac in
  exists d, snd s = Some d /\ detail_platform d = "mac" /\
    rerender (state (onSaveSpecs MoreExamples.padded_form (fst s))) (snd s)
    = Some {| detail_app := selected (state (fst s)); detail_platform := "pc";
              detail_specs :=
                UserProfile.to_value (readSpecsFromForm MoreExamples.padded_form) |}.
Proof.
  intros s. eexists. split; [by vm_compute|]. split; [reflexivity|].
  destruct (save_and_clear_redraw_on_first_tab MoreExamples.padded_form (fst s) (snd s))
    as [H _].
  destruct H as [H _]; [by vm_compute|]. exact H.
Defined.

(** * Number to text and back *)






Lemma place_bounds (a d : Z) : 0 < d ->
  fst (place a d) * d <= a < (fst (place a d) + 1) * d.
Proof.
  intros Hd. unfold place. cbn [fst].
  pose proof (Z.div_mod a d ltac:(lia)). pose proof (Z.mod_pos_bound a d Hd). nia.
Qed.






(** ** Binary digits *)







(** ** The rounding does not depend on how the quotient is presented *)




(** ** The rounding of a decimal literal *)









(** ** What the nearest Number is *)










(** ** Decimal digits *)


Lemma uint_value_acc (l : Decimal.uint) (acc : positive) :
  N.pos (Pos.of_uint_acc l acc) = uint_value l (N.pos acc).
Proof.
  revert acc. induction l; intros acc; cbn [Pos.of_uint_acc uint_value];
    rewrite ?IHl; try reflexivity; f_equal; lia.
Qed.

Lemma uint_value_of_uint (d : Decimal.uint) : uint_value d 0 = N.of_uint d.
Proof.
  unfold N.of_uint.
  induction d; cbn [Pos.of_uint uint_value]; try reflexivity; try exact IHd;
    by rewrite uint_value_acc.
Qed.






(** ** The shortest decimal of a Number *)






















(** ** The text of a Number, read back *)


Lemma digits_run (a rest : string) (acc : N) (cnt : nat) :
  is_digits a = true -> no_digit_ahead rest ->
  NumParse.digits (a +:+ rest) acc cnt
  = (str_value a acc, (cnt + String.length a)%nat, rest).
Proof.
  revert acc cnt. induction a as [ |c a IH]; intros acc cnt Ha Hrest.
  - cbn [String.append str_value String.length]. rewrite Nat.add_0_r.
    destruct rest as [ |c r]; cbn [NumParse.digits]; [done|].
    cbn in Hrest. by rewrite Hrest.
  - cbn [String.append NumParse.digits is_digits str_value String.length] in *.
    destruct (NumParse.digit c) as [d| ]; [|done].
    rewrite IH by done. f_equal. f_equal. lia.
Qed.




Lemma string_of_uint_digits (d : Decimal.uint) (acc : N) :
  is_digits (NilEmpty.string_of_uint d) = true /\
  str_value (NilEmpty.string_of_uint d) acc = uint_value d acc /\
  String.length (NilEmpty.string_of_uint d) = Decimal.nb_digits d.
Proof.
  revert acc. induction d; intros acc;
    cbn [NilEmpty.string_of_uint is_digits str_value uint_value String.length
         Decimal.nb_digits]; [done|..];
    match goal with |- context [uint_value _ ?a] =>
      destruct (IHd a) as (H1 & H2 & H3) end;
    (split; [exact H1|]); (split; [exact H2|by rewrite H3]).
Qed.

Lemma digits_of_N_uint (s : N) :
  NumText.digits_of_N s = NilEmpty.string_of_uint (N.to_uint s).
Proof.
  unfold NumText.digits_of_N, NilZero.string_of_uint.
  destruct s as [ |p]; [reflexivity|]. cbn [N.to_uint].
  pose proof (DecimalPos.Unsigned.to_uint_nonnil p). by destruct (Pos.to_uint p).
Qed.

(** The digits of [s] are digits, read back as [s], and as many as
    [digits10] counts when [s] is not 0. *)
Lemma digits_of_N_spec (s : N) :
  is_digits (NumText.digits_of_N s) = true /\
  str_value (NumText.digits_of_N s) 0 = s /\
  (0 < String.length (NumText.digits_of_N s))%nat.
Proof.
  rewrite digits_of_N_uint.
  destruct (string_of_uint_digits (N.to_uint s) 0) as (H1 & H2 & H3).
  split; [done|]. split.
  - rewrite H2, uint_value_of_uint. apply DecimalN.Unsigned.of_to.
  - rewrite H3. destruct s as [ |p]; [cbn; lia|]. cbn [N.to_uint].
    pose proof (DecimalPos.Unsigned.to_uint_nonnil p).
    destruct (Pos.to_uint p); cbn; try done; lia.
Qed.





Lemma length_take (n : nat) (s : string) : (n <= String.length s)%nat ->
  String.length (NumText.take n s) = n.
Proof.
  revert s. induction n as [ |n IH]; intros [ |c s] H; cbn [NumText.take String.length] in *;
    try done; try lia.
  rewrite IH; lia.
Qed.



(** *** The parts of a JSON number *)


Lemma int_part_digits (c : ascii) (a rest : string) :
  is_digits (String c a) = true -> Ascii.eqb c "0" = false ->
  no_digit_ahead rest ->
  JSON.int_part (String c a +:+ rest) = Some (str_value (String c a) 0, rest).
Proof.
  intros Ha Hc Hrest. unfold JSON.int_part.
  cbn [String.append]. rewrite Hc.
  change (String c (a +:+ rest)) with (String c a +:+ rest).
  rewrite digits_run by done. reflexivity.
Qed.

Lemma frac_part_digits (ip : N) (c : ascii) (a rest : string) :
  is_digits (String c a) = true -> no_digit_ahead rest ->
  JSON.frac_part ip (String "." (String c a +:+ rest))
  = Some (str_value (String c a) ip, String.length (String c a), rest).
Proof.
  intros Ha Hrest. unfold JSON.frac_part.
  change (Ascii.eqb "." ".") with true. cbv iota.
  rewrite digits_run by done. reflexivity.
Qed.










(** ** The Numbers that [Number(text)] gives are binary64 values *)







(** ** Reading a numeric input, for every text *)

(** C10, as the code has it.  For every state of the form, each of RAM, VRAM
    and storage is read from the text of its own input: the empty text is
    read as the number 0 and not as [null]; the field is [null] exactly when
    the text is no numeric literal or is one whose value is an infinity; in
    every other case the field is [Number] of the text, a finite number.  No
    field is left absent. *)
Theorem readSpecsFromForm_numeric_reading (els : Els) :
  numeric_reading (specRam els) (UserProfile.ram_gb (readSpecsFromForm els)) /\
  numeric_reading (specVram els) (UserProfile.vram_gb (readSpecsFromForm els)) /\
  numeric_reading (specStorage els) (UserProfile.storage_gb (readSpecsFromForm els)).
Proof.
  assert (H : forall text, numeric_reading text (toNum text)).
  { intros text. unfold numeric_reading, numeric_text, toNum.
    split; [by intros ->|].
    destruct (NumParse.StringToNumber text) as [s|s| |s m e] eqn:E; cbn.
    - split; [split; [done|by intros [?|[? ?]]]|].
      split; [|done]. intros x. split; [by intros [= <-]|by intros [-> _]].
    - split; [split; [intros _; right; by exists s|done]|].
      split; [|done]. intros x. split; [done|by intros [<- ?]].
    - split; [split; [by left|done]|].
      split; [|done]. intros x. split; [done|by intros [<- ?]].
    - split; [split; [done|by intros [?|[? ?]]]|].
      split; [|done]. intros x. split; [by intros [= <-]|by intros [-> _]]. }
  split; [|split]; apply H.
Qed.

Lemma readSpecsFromForm_numeric_reading_witness :
  UserProfile.ram_gb (readSpecsFromForm Inputs.half_filled_form) = Val Num.zero /\
  UserProfile.vram_gb (readSpecsFromForm Inputs.half_filled_form)
  = Val (NumParse.StringToNumber "7.5") /\
  UserProfile.storage_gb (readSpecsFromForm Inputs.half_filled_form)
  = Val (Num.of_Z 16).
Proof.
  destruct (readSpecsFromForm_numeric_reading Inputs.half_filled_form)
    as ((Hram & _) & (_ & _ & Hvram & _) & (_ & _ & Hsto & _)).
  split; [by apply Hram|]. split.
  - apply Hvram. split; by vm_compute.
  - apply Hsto. split; by vm_compute.
Defined.

(** Text that is a numeric literal and not empty can still be read as
    [null]: the literal [Infinity], and a decimal too large for a Number,
    are numeric and are read as [null]. *)
Lemma readSpecsFromForm_numeric_reading_counterexample :
  numeric_text (specRam Inputs.beyond_range_form) = true /\
  specRam Inputs.beyond_range_form <> EmptyString /\
  UserProfile.ram_gb (readSpecsFromForm Inputs.beyond_range_form) = Null /\
  numeric_text (specVram Inputs.beyond_range_form) = true /\
  specVram Inputs.beyond_range_form <> EmptyString /\
  UserProfile.vram_gb (readSpecsFromForm Inputs.beyond_range_form) = Null.
Proof.
  split; [by vm_compute|]. split; [done|]. split; [by vm_compute|].
  split; [by vm_compute|]. split; [done|by vm_compute].
Qed.

(** ** The shard cache when calls overlap *)

Lemma loadShard_start_hit (shardId : Z) (caller : option Z) (w : World) (data : value) :
  shardCache (state w) !! shardId = Some data ->
  loadShard_start shardId caller w = (Settled (Normal data), w).
Proof.
  intros H. unfold loadShard_start. by rewrite H.
Qed.

Lemma loadShard_start_world (shardId : Z) (caller : option Z) (w : World) :
  state (snd (loadShard_start shardId caller w)) = state w /\
  localStorage (snd (loadShard_start shardId caller w)) = localStorage w /\
  (requests (snd (loadShard_start shardId caller w)) = requests w \/
   requests (snd (loadShard_start shardId caller w)) = shard_url shardId :: requests w).
Proof.
  unfold loadShard_start, fetch.
  destruct (shardCache (state w) !! shardId); [by auto|].
  destruct (network w (requests w) (shard_url shardId)); cbn; auto.
Qed.

Lemma loadShard_start_waiting (shardId k : Z) (caller : option Z) (w : World) :
  is_Some (shardCache (state w) !! k) ->
  Forall (fun t => fetches k t = false)
    (left_waiting caller (fst (loadShard_start shardId caller w))).
Proof.
  intros [d Hd]. unfold loadShard_start, fetch.
  destruct (shardCache (state w) !! shardId) as [data| ] eqn:Hc.
  - cbn. destruct caller; repeat constructor.
  - assert (shardId <> k) by congruence.
    destruct (network w (requests w) (shard_url shardId)); cbn;
      repeat constructor; cbn; lia.
Qed.

Lemma loadShard_fetched_world (shardId : Z) (outcome : completion Response)
    (caller : option Z) (w : World) :
  snd (loadShard_fetched shardId outcome caller w) = w.
Proof.
  unfold loadShard_fetched, json. destruct outcome as [res|e]; [|done].
  by destruct (ok res).
Qed.

Lemma loadShard_parsed_world (shardId : Z) (outcome : completion value) (w : World) :
  let w' := snd (loadShard_parsed shardId outcome w) in
  (forall k, k <> shardId ->
     shardCache (state w') !! k = shardCache (state w) !! k) /\
  (forall k, is_Some (shardCache (state w) !! k) ->
     is_Some (shardCache (state w') !! k)) /\
  (forall data, outcome = Normal data ->
     shardCache (state w') !! shardId = Some data) /\
  requests w' = requests w /\
  localStorage w' = localStorage w /\
  index (state w') = index (state w) /\
  filtered (state w') = filtered (state w) /\
  selected (state w') = selected (state w) /\
  specs (state w') = specs (state w).
Proof.
  destruct outcome as [data|e]; cbn.
  - split; [by intros k Hk; rewrite lookup_insert_ne|].
    split.
    { intros k Hk. destruct (decide (k = shardId)) as [->|Hne].
      - rewrite lookup_insert_eq. by eexists.
      - by rewrite lookup_insert_ne. }
    split; [intros d [= <-]; apply lookup_insert_eq|done].
  - split; [done|]. split; [done|]. split; [by intros d [=]|done].
Qed.

Lemma selectApp_resumed_world (appid : Z) (outcome : completion value) (w : World) :
  let w' := snd (selectApp_resumed appid outcome w) in
  shardCache (state w') = shardCache (state w) /\
  requests w' = requests w /\ localStorage w' = localStorage w /\
  index (state w') = index (state w) /\ filtered (state w') = filtered (state w) /\
  specs (state w') = specs (state w).
Proof.
  unfold selectApp_resumed, bind, get_state, set_state, throw.
  destruct outcome as [shard|e]; [|done].
  destruct shard as [ | |b|x|s|l|ps]; cbn; try done.
  by destruct (find_app appid l).
Qed.

(** A segment keeps every entry of the cache in place, and keeps the data
    of an entry unless it is the last segment of a call for that shard. *)
Lemma resumed_cache (t : Waiting) (w : World) (k : Z) :
  is_Some (shardCache (state w) !! k) ->
  is_Some (shardCache (state (fst (resumed t w))) !! k) /\
  (fetches k t = false ->
     shardCache (state (fst (resumed t w))) !! k = shardCache (state w) !! k /\
     Forall (fun t' => fetches k t' = false) (snd (resumed t w))).
Proof.
  intros Hk. destruct t as [s o c|s o c|a o]; cbn [resumed fetches].
  - pose proof (loadShard_fetched_world s o c w) as Hw.
    destruct (loadShard_fetched s o c w) as [p w'] eqn:E. cbn in *. subst w'.
    split; [done|]. intros Hs. split; [done|].
    unfold loadShard_fetched, json in E. destruct o as [res|e].
    + destruct (ok res); injection E as <-; cbn; [by repeat constructor|].
      destruct c; repeat constructor.
    + injection E as <-. destruct c; repeat constructor.
  - pose proof (loadShard_parsed_world s o w) as (Hother & Hkeep & _).
    destruct (loadShard_parsed s o w) as [p w'] eqn:E. cbn in *.
    split; [by apply Hkeep|]. intros Hs. split; [apply Hother; lia|].
    unfold loadShard_parsed in E.
    destruct o; injection E as <- _; destruct c; repeat constructor.
  - pose proof (selectApp_resumed_world a o w) as (Hc & _). cbn in *.
    rewrite Hc. split; [done|]. intros _. split; [done|constructor].
Qed.

Lemma Forall_delete_waiting (P : Waiting -> Prop) (i : nat) (ts : list Waiting) :
  Forall P ts -> Forall P (delete i ts).
Proof.
  intros H. revert i. induction H as [ |t ts Ht Hts IH]; intros [ |i]; cbn;
    try done; by constructor.
Qed.

Lemma overlap_step_cache (s s' : Session) (k : Z) :
  overlap_step s s' ->
  is_Some (shardCache (state (fst s)) !! k) ->
  is_Some (shardCache (state (fst s')) !! k) /\
  (none_fetching k s ->
     shardCache (state (fst s')) !! k = shardCache (state (fst s)) !! k /\
     none_fetching k s').
Proof.
  assert (Hcall : forall shardId caller s0,
    is_Some (shardCache (state (fst s0)) !! k) ->
    is_Some (shardCache (state (fst (call_loadShard shardId caller s0))) !! k) /\
    (none_fetching k s0 ->
       shardCache (state (fst (call_loadShard shardId caller s0))) !! k
       = shardCache (state (fst s0)) !! k /\
       none_fetching k (call_loadShard shardId caller s0))).
  { intros shardId caller [w ts] Hk. unfold call_loadShard, none_fetching. cbn [fst snd] in *.
    pose proof (loadShard_start_world shardId caller w) as (Hst & _).
    pose proof (loadShard_start_waiting shardId k caller w Hk) as Hw.
    destruct (loadShard_start shardId caller w) as [p w'] eqn:E. cbn [fst snd] in *.
    rewrite Hst. split; [done|]. intros Hts. split; [done|].
    by apply Forall_app. }
  intros [shardId s0|appid s0|i [w ts]|els s0|els s0|s0] Hk; cbn [fst snd] in *;
    try (split; [exact Hk|by intros Hn]).
  - by apply Hcall.
  - by apply Hcall.
  - unfold resume, none_fetching. cbn [fst snd].
    destruct (ts !! i) as [t| ] eqn:Ht; [|by split].
    destruct (resumed_cache t w k Hk) as [Hsome Hkeep].
    destruct (resumed t w) as [w' new] eqn:E. cbn [fst snd] in *.
    split; [done|]. intros Hts.
    assert (Hf : fetches k t = false).
    { rewrite Forall_forall in Hts. apply Hts. by eapply list_elem_of_lookup_2. }
    destruct (Hkeep Hf) as [Heq Hnew]. split; [done|].
    apply Forall_app. split; [done|]. by apply Forall_delete_waiting.
Qed.

(** C3, with calls that overlap.  The last segment of a call that ends with
    data writes that data to the cache.  Once the cache holds data for a
    shard id, at every later point of the session it holds an entry for the
    id, and a call of [loadShard] for the id ends at once with the data the
    cache then holds: no request goes out, nothing is written.  When no
    call for the id was on its way to the cache at the time the data was
    there, the entry is that data for the rest of the session, and no call
    for the id ever is on its way again. *)
Theorem loadShard_served_from_cache (shardId : Z) (data : value) (s s' : Session) :
  shardCache (state (fst s)) !! shardId = Some data ->
  rtc overlap_step s s' ->
  (forall w, shardCache (state (snd (loadShard_parsed shardId (Normal data) w)))
             !! shardId = Some data) /\
  (exists data',
     shardCache (state (fst s')) !! shardId = Some data' /\
     (forall caller,
        loadShard_start shardId caller (fst s') = (Settled (Normal data'), fst s')) /\
     loadShard shardId (fst s') = (Normal data', fst s')) /\
  (none_fetching shardId s ->
     shardCache (state (fst s')) !! shardId = Some data /\
     none_fetching shardId s').
Proof.
  intros Hdata Hsteps.
  split; [intros w; cbn; apply lookup_insert_eq|].
  assert (H : is_Some (shardCache (state (fst s')) !! shardId) /\
              (none_fetching shardId s ->
                 shardCache (state (fst s')) !! shardId = Some data /\
                 none_fetching shardId s')).
  { revert data Hdata. induction Hsteps as [s|s s1 s' Hstep _ IH]; intros data Hdata.
    - split; [by eexists|done].
    - destruct (overlap_step_cache s s1 shardId Hstep) as [[d1 Hd1] Hkeep];
        [by eexists|].
      destruct (IH d1 Hd1) as [Hsome Hnone]. split; [done|].
      intros Hn. destruct (Hkeep Hn) as [Heq Hn1].
      rewrite Hd1, Hdata in Heq. injection Heq as ->. by apply Hnone. }
  destruct H as [[data' Hd'] Hnone]. split; [|done].
  exists data'. split; [done|]. split.
  - intros caller. by apply loadShard_start_hit.
  - by apply loadShard_hit.
Qed.

Lemma loadShard_served_from_cache_witness :
  shardCache (state (fst (call_selectApp 1245 Overlap.second_loaded))) !! 1
  = Some (VArr []) /\
  none_fetching 1 (call_selectApp 1245 Overlap.second_loaded).
Proof.
  destruct (loadShard_served_from_cache 1 (VArr []) Overlap.second_loaded
              (call_selectApp 1245 Overlap.second_loaded)) as (_ & _ & H).
  - by vm_compute.
  - apply rtc_once, overlap_selectApp.
  - apply H. unfold none_fetching. vm_compute. by repeat constructor.
Defined.

(** Two clicks before any response: the two calls both miss the cache and
    both send the request.  The first call ends with the shard and stores
    it; then the second call ends and stores what it was answered, which
    replaces the entry; a call after that is given the second data. *)
Lemma loadShard_served_from_cache_counterexample :
  rtc overlap_step (Overlap.changing_world, []) Overlap.first_loaded /\
  snd Overlap.first_loaded
  = [AwaitShard 1245 (Normal (VArr [VObj [("appid", VNum (Num.of_Z 1245))]]));
     AwaitFetch 1 (Normal Overlap.second_body) (Some 1300)] /\
  shardCache (state (fst Overlap.first_loaded)) !! 1
  = Some (VArr [VObj [("appid", VNum (Num.of_Z 1245))]]) /\
  rtc overlap_step Overlap.first_loaded Overlap.second_loaded /\
  shardCache (state (fst Overlap.second_loaded)) !! 1 = Some (VArr []) /\
  requests (fst Overlap.second_loaded)
  = ["data/shards/shard_00001.json"; "data/shards/shard_00001.json"] /\
  fst (loadShard 1 (fst Overlap.second_loaded)) = Normal (VArr []).
Proof.
  split.
  { eapply rtc_l; [apply (overlap_selectApp 1245)|].
    eapply rtc_l; [apply (overlap_selectApp 1300)|].
    eapply rtc_l; [apply (overlap_resume 1)|].
    eapply rtc_l; [apply (overlap_resume 0)|]. apply rtc_refl. }
  split; [by vm_compute|]. split; [by vm_compute|].
  split.
  { eapply rtc_l; [apply (overlap_resume 1)|].
    eapply rtc_l; [apply (overlap_resume 0)|]. apply rtc_refl. }
  split; [by vm_compute|]. split; by vm_compute.
Qed.

(** X12.  Each segment of a call of [loadShard] keeps to its own shard id.
    The first, up to [await fetch], sends at most one request, for the
    resource of the shard, and changes nothing else.  The second, up to
    [await res.json()], changes nothing.  The last writes at most the cache
    entry of its id: the entry of every other id is as it was and no entry
    is removed; it sends nothing and leaves the index, the list, the
    selection, the profile and [localStorage] alone. *)
Theorem loadShard_touches_only_its_entry (shardId : Z) (caller : option Z)
    (fetched : completion Response) (parsed : completion value) (w : World) :
  let w1 := snd (loadShard_start shardId caller w) in
  let w2 := snd (loadShard_fetched shardId fetched caller w) in
  let w3 := snd (loadShard_parsed shardId parsed w) in
  (state w1 = state w /\ localStorage w1 = localStorage w /\
   (requests w1 = requests w \/ requests w1 = shard_url shardId :: requests w)) /\
  w2 = w /\
  (forall k, k <> shardId ->
     shardCache (state w3) !! k = shardCache (state w) !! k) /\
  (forall k, is_Some (shardCache (state w) !! k) ->
     is_Some (shardCache (state w3) !! k)) /\
  requests w3 = requests w /\
  localStorage w3 = localStorage w /\
  index (state w3) = index (state w) /\
  filtered (state w3) = filtered (state w) /\
  selected (state w3) = selected (state w) /\
  specs (state w3) = specs (state w).
Proof.
  intros w1 w2 w3. subst w1 w2 w3.
  split; [apply loadShard_start_world|].
  split; [apply loadShard_fetched_world|].
  destruct (loadShard_parsed_world shardId parsed w)
    as (Hother & Hkeep & _ & Hreq & Hls & Hi & Hf & Hsel & Hsp).
  split; [exact Hother|]. split; [exact Hkeep|]. by repeat (split; [assumption|]).
Qed.

(** ** Calls that do not overlap *)





(** ** Saving and loading the profile, for every profile *)











(** ** What the requirement column shows *)

Lemma format_first_digit (s : N) (n : Z) :
  exists c r, NumText.format (NumText.digits_of_N s) n = String c r /\
    NumParse.digit c <> None.
Proof.
  destruct (digits_of_N_spec s) as (Hd & _ & Hl).
  destruct (NumText.digits_of_N s) as [ |c r] eqn:E; [cbn in Hl; lia|].
  assert (Hc : NumParse.digit c <> None).
  { cbn [is_digits] in Hd. by destruct (NumParse.digit c). }
  unfold NumText.format.
  destruct ((-5 <=? n) && (n <=? 21)).
  - destruct (Z.of_nat (String.length (String c r)) <=? n); [by eexists _, _|].
    destruct (Z.ltb_spec 0 n) as [Hn|Hn]; [|by eexists _, _].
    destruct (Z.to_nat n) as [ |i] eqn:Ei; [lia|]. by eexists _, _.
  - destruct (Z.of_nat (String.length (String c r)) =? 1); by eexists _, _.
Qed.

Lemma toString_not_Unknown (x : number) : NumText.toString x <> "Unknown".
Proof.
  destruct x as [s|s| |neg m e]; cbn [NumText.toString].
  - discriminate.
  - destruct s; discriminate.
  - discriminate.
  - destruct (NumText.shortest_decimal m e) as [s e10].
    destruct (format_first_digit s
                (Z.of_nat (String.length (NumText.digits_of_N s)) + e10))
      as (c & r & -> & Hc).
    destruct neg; cbn [String.append]; [discriminate|].
    intros [= -> _]. by apply Hc.
Qed.

(** X7.  A numeric requirement is shown as "Unknown" exactly when it is
    absent, [null] or NaN: by [fmtGb], which shows RAM, VRAM and storage,
    and by [fmtNum], which shows DirectX and OpenGL, no Number being written
    "Unknown".  For the three fields that are compared, that is exactly when
    the comparison says "No numeric requirement", whatever the user's value
    is. *)
Theorem requirement_Unknown_iff_absent (userVal reqVal : maybe number) :
  (fmtGb reqVal = "Unknown" <-> absent_or_NaN reqVal) /\
  (fmtNum reqVal = "Unknown" <-> absent_or_NaN reqVal) /\
  (text (compareNumeric userVal reqVal) = "No numeric requirement"
   <-> absent_or_NaN reqVal).
Proof.
  rewrite <- nullish_or_NaN_spec. unfold fmtGb, fmtNum, compareNumeric.
  split; [|split].
  - destruct (nullish_or_NaN reqVal); [done|].
    split; [|done]. intros H. by apply append_GB_not_Unknown in H.
  - destruct (nullish_or_NaN reqVal) eqn:E; [done|].
    split; [|done]. destruct reqVal as [ | |x]; [done|done|].
    intros H. by apply toString_not_Unknown in H.
  - destruct (nullish_or_NaN reqVal); [done|].
    destruct (nullish_or_NaN userVal); [done|].
    destruct (Num.ge _ _); done.
Qed.
